(** * android_util_FileObserver.cpp: the inotify event loop and the watch
      registration entry points, as a shallow embedding.

    Source: [src/fileobserver/src/main/jni/android_util_FileObserver.cpp].

    The native side of [FileObserver$ObserverThread] has five entry points:
    [init], [observe], [startWatching], [stopWatching] and [release].  They
    are modelled as functions on an explicit state; every external call the
    code makes (the libc and the JNI functions) is appended to a trace, so
    that "does not call [close]" or "dispatches exactly these events" are
    statements about that trace. *)

From Stdlib Require Import ZArith Lia List String.
From Stdlib.Strings Require Import Byte.
From stdpp Require Import base option list gmap.
Import ListNotations.

Local Open Scope Z_scope.

(** ** Machine integers *)

(** [INT_MAX] and [INT_MIN] of the 32-bit C [int] (a [jint] is the same). *)
Definition INT_MAX : Z := 2147483647.
Definition INT_MIN : Z := -2147483648.

Definition in_int (z : Z) : bool := (INT_MIN <=? z) && (z <=? INT_MAX).

(** Conversion of an unsigned value to [int]: the low 32 bits, read as a
    two's complement number.  The C code relies on it in
    [event_size = sizeof event + event->len], where the sum is a [size_t]. *)
Definition to_int32 (z : Z) : Z := (z + 2147483648) mod 4294967296 - 2147483648.

(** Conversion to [uint32_t], as in the cast [(uint32_t) wfd]. *)
Definition to_uint32 (z : Z) : Z := z mod 4294967296.

(** ** Bytes and the event buffer *)

Definition byte_val (b : byte) : Z := Z.of_N (Byte.to_N b).

Definition byte_of_Z (z : Z) : byte :=
  match Byte.of_N (Z.to_N (z mod 256)) with
  | Some b => b
  | None => x00
  end.

(** [sizeof(event_buf)]: [char event_buf[512]]. *)
Definition sizeof_event_buf : Z := 512.

(** [sizeof(struct inotify_event)].  The struct comes from <sys/inotify.h>,
    which is a system header: four 32-bit fields [wd], [mask], [cookie],
    [len], followed by the flexible array [name]. *)
Definition sizeof_event : Z := 16.

(** The fixed part of a [struct inotify_event]. *)
Record inotify_event := {
  wd : Z;       (* int32_t  *)
  mask : Z;     (* uint32_t *)
  cookie : Z;   (* uint32_t *)
  len : Z       (* uint32_t *)
}.

(** A 32-bit little-endian load (every Android ABI is little-endian).  The
    offset is relative to [event_buf]; an access that is not wholly inside the
    array has no defined value. *)
Definition load_u32 (buf : list byte) (off : Z) : option Z :=
  if 0 <=? off then
    match drop (Z.to_nat off) buf with
    | b0 :: b1 :: b2 :: b3 :: _ =>
        Some (byte_val b0 + 256 * byte_val b1 + 65536 * byte_val b2
              + 16777216 * byte_val b3)
    | _ => None
    end
  else None.

(** The cast of [event_buf + event_pos] to a pointer to [struct inotify_event],
    followed by the reads of its fields.  The body of the loop reads [len],
    [wd] and [mask]; these reads are inside the array exactly when the whole
    header is, so the header is read in one piece. *)
Definition load_event (buf : list byte) (event_pos : Z) : option inotify_event :=
  w ← load_u32 buf event_pos;
  m ← load_u32 buf (event_pos + 4);
  c ← load_u32 buf (event_pos + 8);
  l ← load_u32 buf (event_pos + 12);
  Some {| wd := to_int32 w; mask := m; cookie := c; len := l |}.

(** The bytes of a C string: everything before the first NUL.  [None] when the
    array ends before a NUL is met. *)
Fixpoint c_str (l : list byte) : option (list byte) :=
  match l with
  | [] => None
  | b :: l' =>
      match b with
      | x00 => Some []
      | _ => cons b <$> c_str l'
      end
  end.

(** The C string that starts at [event_buf + off]. *)
Definition c_str_at (buf : list byte) (off : Z) : option (list byte) :=
  if 0 <=? off then c_str (drop (Z.to_nat off) buf) else None.

(** ** External calls *)

(** Every call that leaves the translation unit, in the order the code makes
    them.  A [jstring] is represented by the bytes it was built from; [NULL]
    is [None]. *)
Inductive call :=
  | C_read (fd : Z)
  | C_ALOGE (msg : string)
  | C_NewStringUTF (bytes : list byte)
  | C_CallVoidMethod (wd mask : Z) (path : option (list byte))
  | C_ExceptionDescribe
  | C_ExceptionClear
  | C_DeleteLocalRef
  | C_GetStringUTFChars
  | C_ReleaseStringUTFChars
  | C_inotify_init
  | C_inotify_add_watch (fd : Z) (path : list byte) (mask : Z)
  | C_inotify_rm_watch (fd : Z) (wd : Z)
  | C_close (fd : Z).

(** [EINTR] of <errno.h>. *)
Definition EINTR : Z := 4.

(** What one call of [read(fd, event_buf, sizeof(event_buf))] does: it stores
    some bytes at the start of the array and returns their number, or it fails,
    returns [-1] and sets [errno]. *)
Inductive read_result :=
  | ReadBytes (data : list byte)
  | ReadError (e : Z).

Definition short_event_msg : string :=
  "***** ERROR! android_os_fileobserver_observe() got a short event!".

(** ** The event loop *)

Section Observe.

(** The Java object [object] and its method [onEvent(int, int, String)],
    reached through [method_onEvent].  The method returns the new state of the
    object and whether it threw.  The Java code runs on the thread of the loop
    and shares its [errno]: [java_errno] gives the value the call leaves there,
    from the state of the object after the call and the value before. *)
Variable sink : Type.
Variable onEvent : sink -> Z -> Z -> option (list byte) -> sink * bool.
Variable java_errno : sink -> Z -> Z.

(** The state of the thread that runs [observe]. *)
Record state := {
  java : sink;
  exception_pending : bool;
  errno : Z;
  trace : list call
}.

(** Computations of the loop: they change the state and either return a
    value or stop at an operation whose behaviour C leaves undefined (an
    access outside [event_buf], a signed overflow). *)
Definition M (A : Type) : Type := state -> state * option A.

#[local] Instance M_ret : MRet M := fun A (a : A) st => (st, Some a).
#[local] Instance M_bind : MBind M := fun A B (f : A -> M B) (m : M A) st =>
  match m st with
  | (st', Some a) => f a st'
  | (st', None) => (st', None)
  end.

Definition undefined {A : Type} : M A := fun st => (st, None).

Definition access {A : Type} (o : option A) : M A :=
  match o with
  | Some a => mret a
  | None => undefined
  end.

Definition emit (c : call) : M unit := fun st =>
  ({| java := java st; exception_pending := exception_pending st;
      errno := errno st; trace := trace st ++ [c] |}, Some tt).

(** [int] arithmetic; an overflow is undefined. *)
Definition int_arith (z : Z) : M Z :=
  if in_int z then mret z else undefined.

(** *** The JNI functions the loop calls *)

(** [env->NewStringUTF(s)] reads the C string at [s]. *)
Definition NewStringUTF (buf : list byte) (off : Z) : M (list byte) :=
  s ← access (c_str_at buf off);
  emit (C_NewStringUTF s);;
  mret s.

(** [env->CallVoidMethod(object, method_onEvent, wd, mask, path)] runs the
    Java method: the object changes, an exception may be left pending, and
    [errno] is what the Java code leaves there. *)
Definition CallVoidMethod (w m : Z) (path : option (list byte)) : M unit :=
  fun st =>
    let '(j, threw) := onEvent (java st) w m path in
    ({| java := j; exception_pending := threw; errno := java_errno j (errno st);
        trace := trace st ++ [C_CallVoidMethod w m path] |}, Some tt).

Definition ExceptionCheck : M bool := fun st => (st, Some (exception_pending st)).

Definition ExceptionDescribe : M unit := emit C_ExceptionDescribe.

Definition ExceptionClear : M unit := fun st =>
  ({| java := java st; exception_pending := false; errno := errno st;
      trace := trace st ++ [C_ExceptionClear] |}, Some tt).

Definition DeleteLocalRef : M unit := emit C_DeleteLocalRef.

Definition ALOGE (msg : string) : M unit := emit (C_ALOGE msg).

(** [read]: at most [sizeof(event_buf)] bytes are stored.  Returns the
    value of [num_bytes] and the array after the call.  [errno] is written
    when the call fails and only then. *)
Definition read (fd : Z) (r : read_result) (event_buf : list byte)
  : M (Z * list byte) := fun st =>
  match r with
  | ReadBytes data =>
      let data := take (Z.to_nat sizeof_event_buf) data in
      ({| java := java st; exception_pending := exception_pending st;
          errno := errno st; trace := trace st ++ [C_read fd] |},
       Some (Z.of_nat (length data), data ++ drop (length data) event_buf))
  | ReadError e =>
      ({| java := java st; exception_pending := exception_pending st;
          errno := e; trace := trace st ++ [C_read fd] |},
       Some (-1, event_buf))
  end.

(** *** The body of the inner [while] *)

(** One pass through the body of
    [while (num_bytes >= (int) sizeof event)]: returns the new values of
    [num_bytes] and [event_pos]. *)
Definition observe_event (event_buf : list byte) (num_bytes event_pos : Z)
  : M (Z * Z) :=
  event ← access (load_event event_buf event_pos);
  path ← (if 0 <? len event
          then s ← NewStringUTF event_buf (event_pos + sizeof_event);
               mret (Some s)
          else mret None);
  CallVoidMethod (wd event) (mask event) path;;
  pending ← ExceptionCheck;
  (if pending : bool then ExceptionDescribe;; ExceptionClear else mret tt);;
  (if path is Some _ then DeleteLocalRef else mret tt);;
  let event_size := to_int32 (sizeof_event + len event) in
  num_bytes ← int_arith (num_bytes - event_size);
  event_pos ← int_arith (event_pos + event_size);
  mret (num_bytes, event_pos).

(** *** The inner [while] *)

(** How a run of the inner loop ends: the condition became false; or the
    body met an undefined operation; or the loop was still running when the
    fuel was used up. *)
Inductive outcome :=
  | Exit (st : state) (num_bytes event_pos : Z)
  | Undefined (st : state)
  | Running (st : state) (num_bytes event_pos : Z).

Fixpoint observe_events (fuel : nat) (event_buf : list byte)
    (num_bytes event_pos : Z) (st : state) : outcome :=
  if sizeof_event <=? num_bytes then
    match fuel with
    | O => Running st num_bytes event_pos
    | S fuel' =>
        match observe_event event_buf num_bytes event_pos st with
        | (st', Some (num_bytes', event_pos')) =>
            observe_events fuel' event_buf num_bytes' event_pos' st'
        | (st', None) => Undefined st'
        end
    end
  else Exit st num_bytes event_pos.

(** *** The outer [while (1)] *)

(** Where the thread is once the given [read] results are used up:
    [observe] has returned; or the thread waits in [read]; or it met an
    undefined operation; or it is still inside the inner loop. *)
Inductive status := Stopped | Blocked | Crashed | Spinning.

(** [reads] lists what the successive calls of [read] do; [event_buf] is the
    content of the array, which is not initialised on entry and keeps its
    bytes from one pass to the next; [fuel] bounds each run of the inner
    loop. *)
Fixpoint android_os_fileobserver_observe (fuel : nat) (reads : list read_result)
    (fd : Z) (event_buf : list byte) (st : state) : state * status :=
  match reads with
  | [] => (st, Blocked)
  | r :: reads' =>
      let event_pos := 0 in
      match read fd r event_buf st with
      | (st, None) => (st, Crashed)
      | (st, Some (num_bytes, event_buf)) =>
          if num_bytes <? sizeof_event then
            if errno st =? EINTR then
              android_os_fileobserver_observe fuel reads' fd event_buf st
            else
              ((ALOGE short_event_msg st).1, Stopped)
          else
            match observe_events fuel event_buf num_bytes event_pos st with
            | Exit st _ _ =>
                android_os_fileobserver_observe fuel reads' fd event_buf st
            | Undefined st => (st, Crashed)
            | Running st _ _ => (st, Spinning)
            end
      end
  end.

(** The events handed to [onEvent] so far, oldest first. *)
Definition dispatched (st : state) : list (Z * Z * option (list byte)) :=
  omap (fun c => match c with
                 | C_CallVoidMethod w m p => Some (w, m, p)
                 | _ => None
                 end) (trace st).

End Observe.

Arguments java {sink} _.
Arguments exception_pending {sink} _.
Arguments errno {sink} _.
Arguments trace {sink} _.
Arguments Exit {sink} _ _ _.
Arguments Undefined {sink} _.
Arguments Running {sink} _ _ _.
Arguments dispatched {sink} _.

(** ** Watch registration *)

Section Registration.

(** The operating system: its state and the system calls the entry points
    use.  Each call returns the new state and its result. *)
Variable kernel : Type.
Variable sys_inotify_init : kernel -> kernel * Z.
Variable sys_inotify_add_watch : kernel -> Z -> list byte -> Z -> kernel * Z.
Variable sys_inotify_rm_watch : kernel -> Z -> Z -> kernel * Z.
Variable sys_close : kernel -> Z -> kernel * Z.

Record world := {
  os : kernel;
  calls : list call
}.

Definition android_os_fileobserver_init (w : world) : world * Z :=
  let '(k, r) := sys_inotify_init (os w) in
  ({| os := k; calls := calls w ++ [C_inotify_init] |}, r).

(** [pathString] is given by the bytes [GetStringUTFChars] returns for it. *)
Definition android_os_fileobserver_startWatching (fd : Z)
    (pathString : list byte) (mask : Z) (w : world) : world * Z :=
  let res := -1 in
  if 0 <=? fd then
    let path := pathString in
    let w := {| os := os w; calls := calls w ++ [C_GetStringUTFChars] |} in
    let '(k, res) := sys_inotify_add_watch (os w) fd path mask in
    let w := {| os := k; calls := calls w ++ [C_inotify_add_watch fd path mask] |} in
    let w := {| os := os w; calls := calls w ++ [C_ReleaseStringUTFChars] |} in
    (w, res)
  else (w, res).

(** The result of [inotify_rm_watch] is dropped; the function is [void]. *)
Definition android_os_fileobserver_stopWatching (fd wfd : Z) (w : world) : world :=
  let '(k, _) := sys_inotify_rm_watch (os w) fd (to_uint32 wfd) in
  {| os := k; calls := calls w ++ [C_inotify_rm_watch fd (to_uint32 wfd)] |}.

Definition release (fd : Z) (w : world) : world :=
  if 0 <=? fd then
    let '(k, _) := sys_close (os w) fd in
    {| os := k; calls := calls w ++ [C_close fd] |}
  else w.

End Registration.

Arguments os {kernel} _.
Arguments calls {kernel} _.

(** ** Raw records, as the kernel writes them *)

(** A record of the inotify stream: the three numbers of the header and the
    name field; the header's [len] is the length of that field. *)
Record raw_event := {
  raw_wd : Z;
  raw_mask : Z;
  raw_cookie : Z;
  raw_name : list byte
}.

Definition store_u32 (z : Z) : list byte :=
  [byte_of_Z z; byte_of_Z (z / 256); byte_of_Z (z / 65536);
   byte_of_Z (z / 16777216)].

(** The bytes of one record. *)
Definition raw_bytes (r : raw_event) : list byte :=
  store_u32 (raw_wd r) ++ store_u32 (raw_mask r) ++ store_u32 (raw_cookie r)
  ++ store_u32 (Z.of_nat (length (raw_name r))) ++ raw_name r.

(** Records packed back to back. *)
Definition pack (rs : list raw_event) : list byte := concat (map raw_bytes rs).

Definition has_nul (l : list byte) : bool := existsb (Byte.eqb x00) l.

(** A record is well formed when its numbers fit their fields and its name
    field, when there is one, holds a NUL (the kernel ends the name with one
    and pads with more). *)
Definition well_formed (r : raw_event) : bool :=
  in_int (raw_wd r)
  && (0 <=? raw_mask r) && (raw_mask r <? 4294967296)
  && (0 <=? raw_cookie r) && (raw_cookie r <? 4294967296)
  && match raw_name r with [] => true | _ => has_nul (raw_name r) end.

(** The bytes of a name field up to its first NUL. *)
Fixpoint until_nul (l : list byte) : list byte :=
  match l with
  | [] => []
  | b :: l' => if Byte.eqb b x00 then [] else b :: until_nul l'
  end.

(** The event a record stands for. *)
Definition event_of (r : raw_event) : Z * Z * option (list byte) :=
  (raw_wd r, raw_mask r,
   match raw_name r with
   | [] => None
   | _ => Some (until_nul (raw_name r))
   end).

(** [header size + nameLength] of a record. *)
Definition raw_size (r : raw_event) : Z :=
  sizeof_event + Z.of_nat (length (raw_name r)).

(** ** Derived descriptions used in the statements *)

(** The [path] argument the body of the inner loop builds for the record at
    [event_pos]: [Some None] is [NULL], [None] means the name is not
    terminated inside [event_buf]. *)
Definition path_of (buf : list byte) (event_pos : Z) (event : inotify_event)
  : option (option (list byte)) :=
  if 0 <? len event then Some <$> c_str_at buf (event_pos + sizeof_event)
  else Some None.

(** The calls of one pass through the body for an event with the given
    arguments; [threw] tells whether [onEvent] raised. *)
Definition calls_of_event (w m : Z) (path : option (list byte)) (threw : bool)
  : list call :=
  (if path is Some s then [C_NewStringUTF s] else [])
  ++ [C_CallVoidMethod w m path]
  ++ (if threw then [C_ExceptionDescribe; C_ExceptionClear] else [])
  ++ (if path is Some _ then [C_DeleteLocalRef] else []).

(** The state after that pass. *)
Definition delivered {sink : Type}
    (onEvent : sink -> Z -> Z -> option (list byte) -> sink * bool)
    (java_errno : sink -> Z -> Z)
    (w m : Z) (path : option (list byte)) (st : state sink) : state sink :=
  {| java := (onEvent (java st) w m path).1;
     exception_pending := false;
     errno := java_errno (onEvent (java st) w m path).1 (errno st);
     trace := trace st
              ++ calls_of_event w m path (onEvent (java st) w m path).2 |}.

(** [event_size] as the body computes it. *)
Definition event_size_of (event : inotify_event) : Z :=
  to_int32 (sizeof_event + len event).

(** The state after the events of the records [rs] were handed over, one
    after the other. *)
Definition deliver_all {sink : Type}
    (onEvent : sink -> Z -> Z -> option (list byte) -> sink * bool)
    (java_errno : sink -> Z -> Z)
    (rs : list raw_event) (st : state sink) : state sink :=
  fold_left (fun st r => delivered onEvent java_errno (raw_wd r) (raw_mask r) (event_of r).2 st)
            rs st.

(** ** Sample inputs *)

(** A Java object without state whose [onEvent] never throws. *)
Definition calm : unit -> Z -> Z -> option (list byte) -> unit * bool :=
  fun _ _ _ _ => (tt, false).

(** Java code that leaves [errno] as it finds it. *)
Definition keeps_errno {sink : Type} : sink -> Z -> Z := fun _ e => e.

(** Java code that leaves [EINTR] in [errno], as after a call of its own that
    a signal interrupted. *)
Definition leaves_EINTR {sink : Type} : sink -> Z -> Z := fun _ _ => EINTR.

(** One whose [onEvent] throws on every [IN_CREATE] event (mask [0x100]). *)
Definition touchy : unit -> Z -> Z -> option (list byte) -> unit * bool :=
  fun _ _ m _ => (tt, m =? 256).

(** The thread on entry to [observe]: nothing pending, nothing called yet. *)
Definition fresh (e : Z) : state unit :=
  {| java := tt; exception_pending := false; errno := e; trace := [] |}.

(** [IN_CREATE] of [a.txt] under watch 3, the name padded to 16 bytes. *)
Definition sample_create : raw_event :=
  {| raw_wd := 3; raw_mask := 256; raw_cookie := 0;
     raw_name := [x61; x2e; x74; x78; x74] ++ replicate 11 x00 |}.

(** [IN_DELETE_SELF] of watch 3: no name. *)
Definition sample_delete_self : raw_event :=
  {| raw_wd := 3; raw_mask := 1024; raw_cookie := 0; raw_name := [] |}.

(** An [event_buf] that starts with the given bytes and is zero after them. *)
Definition zero_padded (l : list byte) : list byte :=
  l ++ replicate (Z.to_nat sizeof_event_buf - length l) x00.

(** A read that delivered only the 16 bytes of a header announcing a name of
    16 bytes ([wd = 3], [IN_CREATE]); behind them [event_buf] still holds
    the bytes [old] of an earlier read. *)
Definition truncated_sample : list byte :=
  zero_padded (store_u32 3 ++ store_u32 256 ++ store_u32 0 ++ store_u32 16
               ++ [x6f; x6c; x64]).

(** The inner loop leaves the record at the cursor alone: some run of the loop
    ends with nothing more dispatched than before. *)
Definition leaves_record_alone {sink : Type}
    (onEvent : sink -> Z -> Z -> option (list byte) -> sink * bool)
    (java_errno : sink -> Z -> Z)
    (event_buf : list byte) (num_bytes event_pos : Z) (st : state sink) : Prop :=
  exists fuel st' nb pos,
    observe_events sink onEvent java_errno fuel event_buf num_bytes event_pos st = Exit st' nb pos
    /\ dispatched st' = dispatched st.

(** ** Comparing runs with a throwing and a silent [onEvent] *)






(** ** Record sizes that fit an [int] *)

(** The headers the inner loop reaches when it starts at [event_pos] with
    [num_bytes] bytes remaining: the one at the cursor and then, as long as a
    header's worth of bytes remains, the one behind the record before, whose
    size is its header's size plus [len].  [passes] bounds how many are
    followed.  The result tells whether for each of them header size plus
    [len] is within the range of [int]. *)
Fixpoint headers_fit_int (passes : nat) (buf : list byte)
    (num_bytes event_pos : Z) : bool :=
  match passes with
  | O => true
  | S passes' =>
      if sizeof_event <=? num_bytes then
        match load_event buf event_pos with
        | Some ev =>
            (sizeof_event + len ev <=? INT_MAX)
            && headers_fit_int passes' buf (num_bytes - (sizeof_event + len ev))
                 (event_pos + (sizeof_event + len ev))
        | None => true
        end
      else true
  end.

(** [IN_MOVED_TO] (mask [0x80]) under watch 3 with cookie 77; the name starts
    with the three bytes of a Chinese character in UTF-8 and is padded to 16
    bytes. *)
Definition sample_moved_to : raw_event :=
  {| raw_wd := 3; raw_mask := 128; raw_cookie := 77;
     raw_name := [xe4; xb8; xad; x2e; x74; x78; x74] ++ replicate 9 x00 |}.

(** [IN_Q_OVERFLOW] (mask [0x4000]): the kernel sends it with [wd = -1]
    and no name. *)
Definition sample_overflow : raw_event :=
  {| raw_wd := -1; raw_mask := 16384; raw_cookie := 0; raw_name := [] |}.

(** A read without failure of fewer bytes than a header. *)
Definition short_success (r : read_result) : bool :=
  match r with
  | ReadBytes data => Z.of_nat (length data) <? sizeof_event
  | ReadError _ => false
  end.

(** Some run of the inner loop comes to an end. *)
Definition inner_loop_ends {sink : Type}
    (onEvent : sink -> Z -> Z -> option (list byte) -> sink * bool)
    (java_errno : sink -> Z -> Z)
    (event_buf : list byte) (num_bytes : Z) (st : state sink) : Prop :=
  exists fuel,
    match observe_events sink onEvent java_errno fuel event_buf num_bytes 0 st with
    | Running _ _ _ => False
    | _ => True
    end.

(** A header whose [len] is [0xFFFFFFF0]: header size plus [len] is [2^32],
    which is 0 as an [int]. *)
Definition endless_sample : list byte :=
  zero_padded (store_u32 1 ++ store_u32 2 ++ store_u32 0 ++ store_u32 4294967280).

(** ** A small model of the kernel side of inotify *)

(** The inotify instances by file descriptor, each with its watches by watch
    descriptor.  It serves as an instance of the system calls the registration
    entry points are stated over. *)
Definition linux_watches (k : gmap Z (gmap Z (list byte))) (fd : Z)
  : gmap Z (list byte) :=
  default ∅ (k !! fd).

(** [inotify_rm_watch] takes the descriptor as the kernel's [__s32]. *)
Definition linux_inotify_rm_watch (k : gmap Z (gmap Z (list byte))) (fd u : Z)
  : gmap Z (gmap Z (list byte)) * Z :=
  match k !! fd with
  | Some t =>
      match t !! to_int32 u with
      | Some _ => (<[fd := delete (to_int32 u) t]> k, 0)
      | None => (k, -1)
      end
  | None => (k, -1)
  end.

(** [inotify_add_watch] hands out a descriptor above all those in use. *)
Definition linux_inotify_add_watch (k : gmap Z (gmap Z (list byte)))
    (fd : Z) (path : list byte) (mask : Z) : gmap Z (gmap Z (list byte)) * Z :=
  match k !! fd with
  | Some t =>
      let w := 1 + map_fold (fun i _ top => Z.max i top) 0 t in
      (<[fd := <[w := path]> t]> k, w)
  | None => (k, -1)
  end.

Definition linux_close (k : gmap Z (gmap Z (list byte))) (fd : Z)
  : gmap Z (gmap Z (list byte)) * Z :=
  match k !! fd with
  | Some _ => (delete fd k, 0)
  | None => (k, -1)
  end.

(** One inotify instance, descriptor 7, watching [/tmp] as watch 1. *)
Definition sample_kernel : gmap Z (gmap Z (list byte)) :=
  {[ 7 := {[ 1 := [x2f; x74; x6d; x70] ]} ]}.

Definition sample_world : world (gmap Z (gmap Z (list byte))) :=
  {| os := sample_kernel; calls := [] |}.

(** ** Counting calls *)

(** The local references a trace leaves behind: one more for each
    [NewStringUTF], one less for each [DeleteLocalRef]. *)
Fixpoint live_refs (t : list call) : Z :=
  match t with
  | [] => 0
  | C_NewStringUTF _ :: t' => live_refs t' + 1
  | C_DeleteLocalRef :: t' => live_refs t' - 1
  | _ :: t' => live_refs t'
  end.

(** The calls [observe] can make on descriptor [fd]: [read] on that
    descriptor, the log, and the JNI functions of the loop body. *)
Definition loop_call (fd : Z) (c : call) : bool :=
  match c with
  | C_read fd' => fd' =? fd
  | C_ALOGE _ | C_NewStringUTF _ | C_CallVoidMethod _ _ _
  | C_ExceptionDescribe | C_ExceptionClear | C_DeleteLocalRef => true
  | _ => false
  end.

(** ** Loading the library *)

(** The native functions of the file, as [sMethods] points to them. *)
Inductive entry_point :=
  | EP_init
  | EP_observe
  | EP_startWatching
  | EP_stopWatching
  | EP_release.

Record JNINativeMethod := {
  name : string;
  signature : string;
  fnPtr : entry_point
}.

Definition sMethods : list JNINativeMethod :=
  [ {| name := "init"; signature := "()I"; fnPtr := EP_init |};
    {| name := "observe"; signature := "(I)V"; fnPtr := EP_observe |};
    {| name := "startWatching"; signature := "(ILjava/lang/String;I)I";
       fnPtr := EP_startWatching |};
    {| name := "stopWatching"; signature := "(II)V"; fnPtr := EP_stopWatching |};
    {| name := "release"; signature := "(I)V"; fnPtr := EP_release |} ].

(** [JNI_VERSION_1_4] and [JNI_OK] of <jni.h>. *)
Definition JNI_VERSION_1_4 : Z := 65540.
Definition JNI_OK : Z := 0.

Definition observer_class : string :=
  "com/droidwolf/fix/FileObserver$ObserverThread".

Definition register_failed_msg : string :=
  "RegisterNatives com/droidwolf/fix/FileObserver$ObserverThread methods failed!".

Definition class_not_found_msg : string :=
  "com/droidwolf/fix/FileObserver$ObserverThread not found!".

(** What the Java virtual machine answers to the calls of [JNI_OnLoad].  A
    class or a method is a number; [None] is [NULL]. *)
Record jvm := {
  vm_GetEnv : Z -> Z;
  vm_FindClass : string -> option Z;
  vm_RegisterNatives : Z -> list JNINativeMethod -> Z -> Z;
  vm_GetMethodID : Z -> string -> string -> option Z
}.

Inductive load_call :=
  | L_GetEnv (version : Z)
  | L_FindClass (class : string)
  | L_RegisterNatives (clazz : Z) (methods : list JNINativeMethod) (n : Z)
  | L_GetMethodID (clazz : Z) (method sig : string)
  | L_DeleteLocalRef (clazz : Z)
  | L_ALOGE (msg : string).

(** The static [method_onEvent] and the calls made so far. *)
Record globals := {
  method_onEvent : option Z;
  load_trace : list load_call
}.

Definition load_emit (c : load_call) (g : globals) : globals :=
  {| method_onEvent := method_onEvent g; load_trace := load_trace g ++ [c] |}.

Definition JNI_OnLoad (vm : jvm) (g : globals) : globals * Z :=
  let retval := -1 in
  let g := load_emit (L_GetEnv JNI_VERSION_1_4) g in
  if vm_GetEnv vm JNI_VERSION_1_4 =? JNI_OK then
    let g := load_emit (L_FindClass observer_class) g in
    match vm_FindClass vm observer_class with
    | Some clazz =>
        let n := Z.of_nat (length sMethods) in
        let g := load_emit (L_RegisterNatives clazz sMethods n) g in
        let '(g, retval) :=
          if 0 <=? vm_RegisterNatives vm clazz sMethods n
          then (g, JNI_VERSION_1_4)
          else (load_emit (L_ALOGE register_failed_msg) g, retval) in
        let g := load_emit (L_GetMethodID clazz "onEvent" "(IILjava/lang/String;)V") g in
        let g := {| method_onEvent :=
                      vm_GetMethodID vm clazz "onEvent" "(IILjava/lang/String;)V";
                    load_trace := load_trace g |} in
        let g := load_emit (L_DeleteLocalRef clazz) g in
        (g, retval)
    | None => (load_emit (L_ALOGE class_not_found_msg) g, retval)
    end
  else (g, retval).

(** The log entries of a load trace. *)
Definition load_logs (t : list load_call) : list string :=
  omap (fun c => match c with L_ALOGE msg => Some msg | _ => None end) t.

(** A virtual machine that knows the class [ObserverThread] as class 11,
    accepts the five natives, and knows [onEvent] as method 42. *)
Definition sample_jvm : jvm :=
  {| vm_GetEnv := fun v => if v =? 65540 then 0 else -3;
     vm_FindClass := fun c =>
       if String.eqb c "com/droidwolf/fix/FileObserver$ObserverThread"
       then Some 11 else None;
     vm_RegisterNatives := fun _ _ n => if n =? 5 then 0 else -1;
     vm_GetMethodID := fun _ m _ => if String.eqb m "onEvent" then Some 42 else None |}.

(** One that knows the class but refuses the natives and has no [onEvent]. *)
Definition refusing_jvm : jvm :=
  {| vm_GetEnv := fun _ => 0;
     vm_FindClass := fun _ => Some 11;
     vm_RegisterNatives := fun _ _ _ => -1;
     vm_GetMethodID := fun _ _ _ => None |}.

Definition not_loaded : globals := {| method_onEvent := None; load_trace := [] |}.

(** A kernel out of inotify instances: [inotify_init] fails. *)
Definition linux_inotify_init_fails (k : gmap Z (gmap Z (list byte)))
  : gmap Z (gmap Z (list byte)) * Z :=
  (k, -1).

(** A record whose name field of four bytes holds no NUL, with the bytes
    [ef] behind it. *)
Definition unterminated_sample : list byte :=
  zero_padded (store_u32 3 ++ store_u32 256 ++ store_u32 0 ++ store_u32 4
               ++ [x61; x62; x63; x64; x65; x66]).

(** ** Machine integers and bytes *)

Lemma in_int_spec z : in_int z = true <-> INT_MIN <= z <= INT_MAX.
Proof. unfold in_int. rewrite andb_true_iff, !Z.leb_le. tauto. Qed.

(** Settles the value of a test of the C code from the facts at hand; what is
    left is arithmetic. *)
Ltac zbool :=
  symmetry;
  match goal with
  | |- (_ <=? _) = true => apply Z.leb_le
  | |- (_ <=? _) = false => apply Z.leb_gt
  | |- (_ <? _) = true => apply Z.ltb_lt
  | |- (_ =? _) = false => apply Z.eqb_neq
  | |- in_int _ = true => apply in_int_spec; unfold INT_MIN, INT_MAX
  end.

Lemma to_int32_small z : INT_MIN <= z <= INT_MAX -> to_int32 z = z.
Proof.
  unfold to_int32, INT_MIN, INT_MAX. intros H.
  rewrite Z.mod_small by lia. lia.
Qed.

Lemma to_int32_to_uint32 z : to_int32 (to_uint32 z) = to_int32 z.
Proof.
  unfold to_int32, to_uint32.
  f_equal. rewrite Zplus_mod_idemp_l. reflexivity.
Qed.

Lemma byte_val_range b : 0 <= byte_val b <= 255.
Proof. unfold byte_val. pose proof (Byte.to_N_bounded b). lia. Qed.

Lemma byte_val_of_Z z : byte_val (byte_of_Z z) = z mod 256.
Proof.
  unfold byte_val, byte_of_Z.
  pose proof (Z.mod_pos_bound z 256 eq_refl) as Hr.
  destruct (Byte.of_N (Z.to_N (z mod 256))) as [b|] eqn:E.
  - apply Byte.to_of_N in E. rewrite E. lia.
  - apply Byte.of_N_None_iff in E. lia.
Qed.

Lemma load_u32_range buf off z : load_u32 buf off = Some z -> 0 <= z < 4294967296.
Proof.
  unfold load_u32. destruct (0 <=? off); [|discriminate].
  destruct (drop _ buf) as [|b0 [|b1 [|b2 [|b3 ?]]]]; try discriminate.
  intros [= <-].
  pose proof (byte_val_range b0). pose proof (byte_val_range b1).
  pose proof (byte_val_range b2). pose proof (byte_val_range b3). lia.
Qed.

Lemma load_u32_app pre l post off :
  off = Z.of_nat (length pre) ->
  (4 <= length l)%nat ->
  load_u32 (pre ++ l ++ post) off = load_u32 l 0.
Proof.
  intros -> Hl. unfold load_u32.
  replace (0 <=? Z.of_nat (length pre)) with true by (zbool; lia).
  rewrite Nat2Z.id, drop_app_length. simpl.
  destruct l as [|b0 [|b1 [|b2 [|b3 l]]]]; simpl in Hl; try lia.
  reflexivity.
Qed.

Lemma load_store_u32 z l : load_u32 (store_u32 z ++ l) 0 = Some (z mod 4294967296).
Proof.
  unfold load_u32, store_u32. simpl. rewrite !byte_val_of_Z.
  f_equal. Z.div_mod_to_equations. lia.
Qed.

(** ** C strings *)

Lemma c_str_until_nul l post :
  has_nul l = true -> c_str (l ++ post) = Some (until_nul l).
Proof.
  induction l as [|b l IH]; simpl; [discriminate|].
  intros H. destruct b; simpl in *; try reflexivity;
    rewrite (IH H); reflexivity.
Qed.

Lemma c_str_take (field : list byte) post p :
  field !! p = Some x00 ->
  (forall q, (q < p)%nat -> field !! q <> Some x00) ->
  c_str (field ++ post) = Some (take p field).
Proof.
  revert p. induction field as [|b l IH]; intros p Hp Hq; [discriminate|].
  destruct p as [|p]; simpl in *.
  - injection Hp as ->. reflexivity.
  - assert (b <> x00) as Hb by (intros ->; apply (Hq 0%nat); [lia|reflexivity]).
    rewrite (IH p Hp) by (intros q Hlt; apply (Hq (S q)); lia).
    destruct b; try reflexivity. congruence.
Qed.

Lemma c_str_at_app pre l post off :
  off = Z.of_nat (length pre) ->
  c_str_at (pre ++ l ++ post) off = c_str (l ++ post).
Proof.
  intros ->. unfold c_str_at.
  replace (0 <=? Z.of_nat (length pre)) with true by (zbool; lia).
  rewrite Nat2Z.id, drop_app_length. reflexivity.
Qed.

(** ** The body of the inner loop, in closed form *)

Section Body.

Context {sink : Type}.
Variable onEvent : sink -> Z -> Z -> option (list byte) -> sink * bool.
Variable java_errno : sink -> Z -> Z.

Lemma observe_event_eq buf nb pos (st : state sink) :
  observe_event sink onEvent java_errno buf nb pos st =
  match load_event buf pos with
  | None => (st, None)
  | Some ev =>
      match path_of buf pos ev with
      | None => (st, None)
      | Some path =>
          let st' := delivered onEvent java_errno (wd ev) (mask ev) path st in
          if in_int (nb - event_size_of ev) then
            if in_int (pos + event_size_of ev) then
              (st', Some (nb - event_size_of ev, pos + event_size_of ev))
            else (st', None)
          else (st', None)
      end
  end.
Proof.
  unfold observe_event, path_of, event_size_of, delivered, calls_of_event.
  unfold mbind, M_bind, access, NewStringUTF, CallVoidMethod, ExceptionCheck,
    ExceptionDescribe, ExceptionClear, DeleteLocalRef, int_arith, emit,
    undefined, mret, M_ret, mbind, M_bind.
  destruct (load_event buf pos) as [ev|]; [|reflexivity].
  destruct st as [j p e t]. simpl.
  destruct (0 <? len ev).
  - destruct (c_str_at buf (pos + sizeof_event)) as [s|]; simpl; [|reflexivity].
    destruct (onEvent j (wd ev) (mask ev) (Some s)) as [j' threw]; simpl.
    destruct threw; simpl;
      destruct (in_int (nb - _)); simpl; try destruct (in_int (pos + _)); simpl;
      rewrite <- ?app_assoc; reflexivity.
  - simpl.
    destruct (onEvent j (wd ev) (mask ev) None) as [j' threw]; simpl.
    destruct threw; simpl;
      destruct (in_int (nb - _)); simpl; try destruct (in_int (pos + _)); simpl;
      rewrite <- ?app_assoc; reflexivity.
Qed.

End Body.

(** ** Packed records *)

Lemma load_u32_at pre z post off :
  off = Z.of_nat (length pre) ->
  load_u32 (pre ++ store_u32 z ++ post) off = Some (z mod 4294967296).
Proof.
  intros ->. rewrite load_u32_app by (reflexivity || (simpl; lia)).
  rewrite <- (load_store_u32 z []), app_nil_r. reflexivity.
Qed.

Lemma raw_bytes_length r : Z.of_nat (length (raw_bytes r)) = raw_size r.
Proof.
  unfold raw_bytes, raw_size, sizeof_event. rewrite !length_app. simpl. lia.
Qed.

Lemma pack_cons r rs : pack (r :: rs) = raw_bytes r ++ pack rs.
Proof. reflexivity. Qed.

Lemma pack_app rs1 rs2 : pack (rs1 ++ rs2) = pack rs1 ++ pack rs2.
Proof. unfold pack. rewrite map_app, concat_app. reflexivity. Qed.

Lemma load_event_raw pre r post :
  well_formed r = true ->
  Z.of_nat (length (raw_name r)) < 4294967296 ->
  load_event (pre ++ raw_bytes r ++ post) (Z.of_nat (length pre)) =
  Some {| wd := raw_wd r; mask := raw_mask r; cookie := raw_cookie r;
          len := Z.of_nat (length (raw_name r)) |}.
Proof.
  intros Hwf Hlen. unfold well_formed in Hwf.
  rewrite !andb_true_iff, in_int_spec, !Z.leb_le, !Z.ltb_lt in Hwf.
  destruct Hwf as [[[[[Hwd Hm0] Hm1] Hc0] Hc1] _].
  unfold load_event, raw_bytes.
  set (A := store_u32 (raw_wd r)). set (B := store_u32 (raw_mask r)).
  set (C := store_u32 (raw_cookie r)).
  set (D := store_u32 (Z.of_nat (length (raw_name r)))).
  set (N := raw_name r).
  assert (load_u32 (pre ++ (A ++ B ++ C ++ D ++ N) ++ post) (Z.of_nat (length pre))
          = Some (raw_wd r mod 4294967296)) as ->.
  { rewrite <- !app_assoc. apply load_u32_at. reflexivity. }
  assert (load_u32 (pre ++ (A ++ B ++ C ++ D ++ N) ++ post) (Z.of_nat (length pre) + 4)
          = Some (raw_mask r mod 4294967296)) as ->.
  { replace (pre ++ (A ++ B ++ C ++ D ++ N) ++ post)
      with ((pre ++ A) ++ B ++ (C ++ D ++ N ++ post))
      by (rewrite <- !app_assoc; reflexivity).
    apply load_u32_at. rewrite length_app. simpl. lia. }
  assert (load_u32 (pre ++ (A ++ B ++ C ++ D ++ N) ++ post) (Z.of_nat (length pre) + 8)
          = Some (raw_cookie r mod 4294967296)) as ->.
  { replace (pre ++ (A ++ B ++ C ++ D ++ N) ++ post)
      with ((pre ++ A ++ B) ++ C ++ (D ++ N ++ post))
      by (rewrite <- !app_assoc; reflexivity).
    apply load_u32_at. rewrite !length_app. simpl. lia. }
  assert (load_u32 (pre ++ (A ++ B ++ C ++ D ++ N) ++ post) (Z.of_nat (length pre) + 12)
          = Some (Z.of_nat (length N) mod 4294967296)) as ->.
  { replace (pre ++ (A ++ B ++ C ++ D ++ N) ++ post)
      with ((pre ++ A ++ B ++ C) ++ D ++ (N ++ post))
      by (rewrite <- !app_assoc; reflexivity).
    apply load_u32_at. rewrite !length_app. simpl. lia. }
  simpl. f_equal. f_equal.
  - change (raw_wd r mod 4294967296) with (to_uint32 (raw_wd r)).
    rewrite to_int32_to_uint32. apply to_int32_small. exact Hwd.
  - apply Z.mod_small. lia.
  - apply Z.mod_small. lia.
  - apply Z.mod_small. subst N. lia.
Qed.

Lemma path_of_raw pre r post :
  well_formed r = true ->
  path_of (pre ++ raw_bytes r ++ post) (Z.of_nat (length pre))
    {| wd := raw_wd r; mask := raw_mask r; cookie := raw_cookie r;
       len := Z.of_nat (length (raw_name r)) |}
  = Some (event_of r).2.
Proof.
  intros Hwf. unfold well_formed in Hwf.
  apply andb_true_iff in Hwf as [_ Hn].
  unfold path_of, event_of, raw_bytes. cbn [len snd].
  set (H4 := store_u32 (raw_wd r) ++ store_u32 (raw_mask r)
             ++ store_u32 (raw_cookie r)
             ++ store_u32 (Z.of_nat (length (raw_name r)))).
  assert (Z.of_nat (length H4) = 16) as HH4
    by (subst H4; rewrite !length_app; simpl; lia).
  replace (pre ++ (store_u32 (raw_wd r) ++ store_u32 (raw_mask r)
                   ++ store_u32 (raw_cookie r)
                   ++ store_u32 (Z.of_nat (length (raw_name r))) ++ raw_name r)
               ++ post)
    with ((pre ++ H4) ++ raw_name r ++ post)
    by (subst H4; rewrite <- !app_assoc; reflexivity).
  clearbody H4.
  destruct (raw_name r) as [|b l] eqn:En.
  - reflexivity.
  - replace (0 <? Z.of_nat (length (b :: l))) with true
      by (zbool; simpl; lia).
    rewrite c_str_at_app by (rewrite length_app; unfold sizeof_event; lia).
    rewrite c_str_until_nul by exact Hn. reflexivity.
Qed.

(** ** The inner loop on packed records *)

Section Packed.

Context {sink : Type}.
Variable onEvent : sink -> Z -> Z -> option (list byte) -> sink * bool.
Variable java_errno : sink -> Z -> Z.

Lemma dispatched_delivered w m path (st : state sink) :
  dispatched (delivered onEvent java_errno w m path st) = dispatched st ++ [(w, m, path)].
Proof.
  unfold dispatched, delivered, calls_of_event. cbn [trace].
  rewrite omap_app. f_equal.
  destruct path, ((onEvent (java st) w m _).2); reflexivity.
Qed.

Lemma dispatched_deliver_all rs (st : state sink) :
  dispatched (deliver_all onEvent java_errno rs st) = dispatched st ++ map event_of rs.
Proof.
  revert st. induction rs as [|r rs IH]; intros st; simpl.
  - rewrite app_nil_r. reflexivity.
  - unfold deliver_all in *. simpl. rewrite IH, dispatched_delivered.
    rewrite <- app_assoc. simpl. destruct r; reflexivity.
Qed.

(** One pass of the body at the start of a well-formed record. *)
Lemma observe_event_raw pre r post nb (st : state sink) :
  well_formed r = true ->
  Z.of_nat (length (pre ++ raw_bytes r ++ post)) <= sizeof_event_buf ->
  0 <= nb <= sizeof_event_buf ->
  observe_event sink onEvent java_errno (pre ++ raw_bytes r ++ post) nb
    (Z.of_nat (length pre)) st
  = (delivered onEvent java_errno (raw_wd r) (raw_mask r) (event_of r).2 st,
     Some (nb - raw_size r, Z.of_nat (length pre) + raw_size r)).
Proof.
  intros Hwf Hlen Hnb.
  rewrite !length_app, !Nat2Z.inj_add, raw_bytes_length in Hlen.
  unfold sizeof_event_buf in *.
  assert (16 <= raw_size r <= 512) as Hsz
    by (unfold raw_size, sizeof_event in *; lia).
  rewrite observe_event_eq.
  rewrite load_event_raw by (try assumption; unfold raw_size, sizeof_event in *; lia).
  rewrite path_of_raw by assumption.
  unfold event_size_of. cbn [len wd mask].
  change (sizeof_event + Z.of_nat (length (raw_name r))) with (raw_size r).
  rewrite to_int32_small by (unfold INT_MIN, INT_MAX; lia).
  replace (in_int (nb - raw_size r)) with true
    by (zbool; lia).
  replace (in_int (Z.of_nat (length pre) + raw_size r)) with true
    by (zbool; lia).
  reflexivity.
Qed.

Lemma observe_events_pack rs : forall pre post fuel (st : state sink),
  forallb well_formed rs = true ->
  Z.of_nat (length (pre ++ pack rs ++ post)) <= sizeof_event_buf ->
  (length rs <= fuel)%nat ->
  observe_events sink onEvent java_errno fuel (pre ++ pack rs ++ post)
    (Z.of_nat (length (pack rs))) (Z.of_nat (length pre)) st
  = Exit (deliver_all onEvent java_errno rs st) 0 (Z.of_nat (length (pre ++ pack rs))).
Proof.
  induction rs as [|r rs IH]; intros pre post fuel st Hwf Hlen Hfuel.
  - simpl. rewrite app_nil_r. destruct fuel; reflexivity.
  - simpl in Hwf. apply andb_true_iff in Hwf as [Hr Hrs].
    destruct fuel as [|fuel]; [simpl in Hfuel; lia|].
    rewrite pack_cons in *.
    assert (Z.of_nat (length (raw_bytes r ++ pack rs))
            = raw_size r + Z.of_nat (length (pack rs))) as Hl
      by (rewrite length_app, Nat2Z.inj_add, raw_bytes_length; reflexivity).
    assert (sizeof_event <= raw_size r) as Hge
      by (unfold raw_size; lia).
    cbn [observe_events].
    replace (sizeof_event <=? Z.of_nat (length (raw_bytes r ++ pack rs))) with true
      by (zbool; lia).
    replace (pre ++ (raw_bytes r ++ pack rs) ++ post)
      with (pre ++ raw_bytes r ++ (pack rs ++ post)) in *
      by (rewrite <- !app_assoc; reflexivity).
    rewrite observe_event_raw; try assumption.
    2:{ rewrite !length_app, !Nat2Z.inj_add in Hlen.
        rewrite length_app, Nat2Z.inj_add in Hl |- *. lia. }
    replace (Z.of_nat (length (raw_bytes r ++ pack rs)) - raw_size r)
      with (Z.of_nat (length (pack rs))) by lia.
    replace (Z.of_nat (length pre) + raw_size r)
      with (Z.of_nat (length (pre ++ raw_bytes r)))
      by (rewrite length_app, Nat2Z.inj_add, raw_bytes_length; reflexivity).
    replace (pre ++ raw_bytes r ++ pack rs ++ post)
      with ((pre ++ raw_bytes r) ++ pack rs ++ post) in *
      by (rewrite <- !app_assoc; reflexivity).
    rewrite IH; try assumption; [|simpl in Hfuel; lia].
    rewrite <- !app_assoc. reflexivity.
Qed.

End Packed.

(** ** Claims about the decode loop *)

(** C1.  When [event_buf] starts with N well-formed records packed back to
    back and [num_bytes] is their total length, the inner loop of [observe]
    hands exactly the N events of these records to [onEvent], in the order of
    the records, and leaves with no byte remaining and the cursor at the end of
    the last record; at each record the body moves the cursor by exactly the
    header size plus the record's [len], so that it stands at the start of the
    next record. *)
Theorem packed_records_dispatched_in_order
    (sink : Type) (onEvent : sink -> Z -> Z -> option (list byte) -> sink * bool)
    (java_errno : sink -> Z -> Z)
    (rs : list raw_event) (stale : list byte) (fuel : nat) (st : state sink) :
  forallb well_formed rs = true ->
  Z.of_nat (length (pack rs ++ stale)) = sizeof_event_buf ->
  (length rs <= fuel)%nat ->
  let event_buf := pack rs ++ stale in
  let num_bytes := Z.of_nat (length (pack rs)) in
  (exists st',
      observe_events sink onEvent java_errno fuel event_buf num_bytes 0 st
      = Exit st' 0 num_bytes
      /\ dispatched st' = dispatched st ++ map event_of rs
      /\ length (dispatched st') = (length (dispatched st) + length rs)%nat)
  /\ (forall rs1 r rs2 (st1 : state sink),
        rs = rs1 ++ r :: rs2 ->
        exists st2,
          observe_event sink onEvent java_errno event_buf
            (Z.of_nat (length (pack (r :: rs2)))) (Z.of_nat (length (pack rs1))) st1
          = (st2, Some (Z.of_nat (length (pack rs2)),
                        Z.of_nat (length (pack rs1)) + raw_size r))
          /\ dispatched st2 = dispatched st1 ++ [event_of r]).
Proof.
  intros Hwf Hlen Hfuel event_buf num_bytes. subst event_buf num_bytes. split.
  - exists (deliver_all onEvent java_errno rs st).
    pose proof (observe_events_pack onEvent java_errno rs [] stale fuel st Hwf) as H.
    cbn [app length] in H. change (Z.of_nat 0) with 0 in H.
    rewrite H by (assumption || lia).
    rewrite dispatched_deliver_all, length_app, length_map. auto.
  - intros rs1 r rs2 st1 ->.
    rewrite forallb_app in Hwf. apply andb_true_iff in Hwf as [_ Hwf].
    simpl in Hwf. apply andb_true_iff in Hwf as [Hr _].
    exists (delivered onEvent java_errno (raw_wd r) (raw_mask r) (event_of r).2 st1).
    rewrite pack_app, !pack_cons in *.
    replace ((pack rs1 ++ raw_bytes r ++ pack rs2) ++ stale)
      with (pack rs1 ++ raw_bytes r ++ (pack rs2 ++ stale)) in *
      by (rewrite <- !app_assoc; reflexivity).
    rewrite observe_event_raw; [|assumption|lia|].
    + split.
      * do 3 f_equal. rewrite length_app, Nat2Z.inj_add, raw_bytes_length. lia.
      * rewrite dispatched_delivered. destruct r; reflexivity.
    + rewrite !length_app, !Nat2Z.inj_add in Hlen.
      rewrite length_app, Nat2Z.inj_add. lia.
Qed.

Lemma packed_records_dispatched_in_order_witness :
  let rs := [sample_create; sample_delete_self; sample_create] in
  let event_buf := zero_padded (pack rs) in
  (exists st',
      observe_events unit touchy keeps_errno 3 event_buf 80 0 (fresh 0) = Exit st' 0 80
      /\ dispatched st' = map event_of rs
      /\ length (dispatched st') = 3%nat)
  /\ (forall rs1 r rs2 (st1 : state unit),
        rs = rs1 ++ r :: rs2 ->
        exists st2,
          observe_event unit touchy keeps_errno event_buf
            (Z.of_nat (length (pack (r :: rs2)))) (Z.of_nat (length (pack rs1))) st1
          = (st2, Some (Z.of_nat (length (pack rs2)),
                        Z.of_nat (length (pack rs1)) + raw_size r))
          /\ dispatched st2 = dispatched st1 ++ [event_of r]).
Proof.
  intros rs event_buf.
  apply (packed_records_dispatched_in_order unit touchy keeps_errno rs
           (replicate (Z.to_nat sizeof_event_buf - length (pack rs)) x00) 3 (fresh 0)).
  - reflexivity.
  - reflexivity.
  - simpl. lia.
Defined.

Lemma observe_events_exit {sink : Type} onEvent java_errno fuel buf nb pos (st : state sink) :
  nb < sizeof_event ->
  observe_events sink onEvent java_errno fuel buf nb pos st = Exit st nb pos.
Proof.
  intros H. destruct fuel; simpl;
    (replace (sizeof_event <=? nb) with false by (zbool; lia));
    reflexivity.
Qed.

Lemma observe_events_step {sink : Type} onEvent java_errno fuel buf nb pos (st : state sink) :
  sizeof_event <= nb ->
  observe_events sink onEvent java_errno (S fuel) buf nb pos st =
  match observe_event sink onEvent java_errno buf nb pos st with
  | (st', Some (nb', pos')) => observe_events sink onEvent java_errno fuel buf nb' pos' st'
  | (st', None) => Undefined st'
  end.
Proof.
  intros H. simpl.
  replace (sizeof_event <=? nb) with true by (zbool; lia).
  reflexivity.
Qed.

Lemma load_event_pos buf pos ev : load_event buf pos = Some ev -> 0 <= pos.
Proof.
  unfold load_event, load_u32. destruct (0 <=? pos) eqn:E; [|discriminate].
  intros _. apply Z.leb_le. exact E.
Qed.

Lemma load_event_len buf pos ev :
  load_event buf pos = Some ev -> 0 <= len ev < 4294967296.
Proof.
  unfold load_event. intros H.
  destruct (load_u32 buf pos) as [w|]; [|discriminate]. simpl in H.
  destruct (load_u32 buf (pos + 4)) as [m|]; [|discriminate]. simpl in H.
  destruct (load_u32 buf (pos + 8)) as [c|]; [|discriminate]. simpl in H.
  destruct (load_u32 buf (pos + 12)) as [l|] eqn:El; [|discriminate]. simpl in H.
  injection H as <-. simpl. eapply load_u32_range, El.
Qed.

(** C2, as the specification has it, fails: on [truncated_sample] with
    [num_bytes = 16] a whole header remains and the record it announces is 32
    bytes long, yet no run of the loop leaves it alone; the loop hands
    [(3, IN_CREATE, "old")] to [onEvent], the name being bytes the read did
    not deliver. *)
Lemma truncated_record_is_dispatched :
  exists event,
    sizeof_event <= 16
    /\ load_event truncated_sample 0 = Some event
    /\ 16 < sizeof_event + len event
    /\ ~ leaves_record_alone calm keeps_errno truncated_sample 16 0 (fresh 0)
    /\ exists st',
         observe_events unit calm keeps_errno 1 truncated_sample 16 0 (fresh 0)
         = Exit st' (-16) 32
         /\ dispatched st' = [(3, 256, Some [x6f; x6c; x64])].
Proof.
  eexists. split; [unfold sizeof_event; lia|].
  split; [vm_compute; reflexivity|].
  split; [vm_compute; reflexivity|].
  split.
  - intros (fuel & st' & nb & pos & Hrun & Hd).
    destruct fuel as [|fuel]; [discriminate|].
    rewrite observe_events_step in Hrun by (unfold sizeof_event; lia).
    assert (observe_event unit calm keeps_errno truncated_sample 16 0 (fresh 0)
            = (delivered calm keeps_errno 3 256 (Some [x6f; x6c; x64]) (fresh 0), Some (-16, 32)))
      as E by (vm_compute; reflexivity).
    rewrite E in Hrun.
    rewrite observe_events_exit in Hrun by (unfold sizeof_event; lia).
    injection Hrun as <- _ _. discriminate Hd.
  - eexists. split; vm_compute; reflexivity.
Qed.

(** C2, amended.  When at least a header remains and the record announced at
    the cursor is longer than the bytes that remain, the body of the loop still
    runs for it: provided the name ends inside [event_buf] and the cursor stays
    in the range of [int], exactly one event is handed to [onEvent], built from
    the header and from the bytes behind it whether the read delivered them or
    not; the remaining count becomes negative, the loop is left, and nothing is
    logged. *)
Theorem truncated_record_dispatched_then_exit
    (sink : Type) (onEvent : sink -> Z -> Z -> option (list byte) -> sink * bool)
    (java_errno : sink -> Z -> Z)
    (event_buf : list byte) (num_bytes event_pos : Z) (st : state sink)
    (event : inotify_event) (path : option (list byte)) (fuel : nat) :
  sizeof_event <= num_bytes <= INT_MAX ->
  load_event event_buf event_pos = Some event ->
  num_bytes < sizeof_event + len event ->
  path_of event_buf event_pos event = Some path ->
  event_pos + sizeof_event + len event <= INT_MAX ->
  let st' := delivered onEvent java_errno (wd event) (mask event) path st in
  observe_events sink onEvent java_errno (S fuel) event_buf num_bytes event_pos st
  = Exit st' (num_bytes - (sizeof_event + len event))
         (event_pos + (sizeof_event + len event))
  /\ num_bytes - (sizeof_event + len event) < 0
  /\ dispatched st' = dispatched st ++ [(wd event, mask event, path)]
  /\ (forall msg, ~ In (C_ALOGE msg) (drop (length (trace st)) (trace st'))).
Proof.
  intros Hnb Hev Hlong Hpath Hpos st'.
  pose proof (load_event_pos _ _ _ Hev) as Hp0.
  pose proof (load_event_len _ _ _ Hev) as Hl.
  assert (event_size_of event = sizeof_event + len event) as Hes.
  { unfold event_size_of. apply to_int32_small.
    unfold INT_MIN, INT_MAX, sizeof_event in *. lia. }
  split; [|split; [lia|split]].
  - rewrite observe_events_step by lia.
    rewrite observe_event_eq, Hev, Hpath. cbn zeta. rewrite Hes.
    replace (in_int (num_bytes - (sizeof_event + len event))) with true
      by (zbool; unfold INT_MIN, INT_MAX, sizeof_event in *; lia).
    replace (in_int (event_pos + (sizeof_event + len event))) with true
      by (zbool; unfold INT_MIN, INT_MAX, sizeof_event in *; lia).
    apply observe_events_exit. unfold sizeof_event in *. lia.
  - apply dispatched_delivered.
  - intros msg. subst st'. unfold delivered. cbn [trace].
    rewrite drop_app_length. unfold calls_of_event.
    destruct path, ((onEvent (java st) (wd event) (mask event) _).2); simpl;
      intuition discriminate.
Qed.

Lemma truncated_record_dispatched_then_exit_witness :
  observe_events unit calm keeps_errno 1 truncated_sample 16 0 (fresh 0)
  = Exit (delivered calm keeps_errno 3 256 (Some [x6f; x6c; x64]) (fresh 0)) (16 - (16 + 16)) (0 + (16 + 16))
  /\ 16 - (16 + 16) < 0
  /\ dispatched (delivered calm keeps_errno 3 256 (Some [x6f; x6c; x64]) (fresh 0))
     = dispatched (fresh 0) ++ [(3, 256, Some [x6f; x6c; x64])]
  /\ (forall msg, ~ In (C_ALOGE msg)
        (drop (length (trace (fresh 0)))
              (trace (delivered calm keeps_errno 3 256 (Some [x6f; x6c; x64]) (fresh 0))))).
Proof.
  apply (truncated_record_dispatched_then_exit unit calm keeps_errno truncated_sample 16 0
           (fresh 0) {| wd := 3; mask := 256; cookie := 0; len := 16 |}
           (Some [x6f; x6c; x64]) 0).
  - unfold sizeof_event, INT_MAX. lia.
  - vm_compute. reflexivity.
  - simpl. unfold sizeof_event. lia.
  - vm_compute. reflexivity.
  - simpl. unfold sizeof_event, INT_MAX. lia.
Defined.

(** C3.  For the record at the cursor: when its [len] is 0, [onEvent]
    receives a null name; when its [len] is [k > 0] and the first NUL of the
    [k] bytes of its name field is at position [p], [onEvent] receives the
    first [p] bytes of the field. *)
Theorem name_of_dispatched_event
    (sink : Type) (onEvent : sink -> Z -> Z -> option (list byte) -> sink * bool)
    (java_errno : sink -> Z -> Z)
    (event_buf : list byte) (num_bytes event_pos : Z) (st : state sink)
    (event : inotify_event) :
  load_event event_buf event_pos = Some event ->
  (len event = 0 ->
   exists st' r,
     observe_event sink onEvent java_errno event_buf num_bytes event_pos st = (st', r)
     /\ dispatched st' = dispatched st ++ [(wd event, mask event, None)])
  /\ (forall (k : Z) (p : nat) (field : list byte),
        len event = k -> 0 < k ->
        field = take (Z.to_nat k) (drop (Z.to_nat (event_pos + sizeof_event)) event_buf) ->
        field !! p = Some x00 ->
        (forall q, (q < p)%nat -> field !! q <> Some x00) ->
        exists st' r,
          observe_event sink onEvent java_errno event_buf num_bytes event_pos st = (st', r)
          /\ dispatched st' = dispatched st
                              ++ [(wd event, mask event, Some (take p field))]).
Proof.
  intros Hev. pose proof (load_event_pos _ _ _ Hev) as Hp0. split.
  - intros H0. rewrite observe_event_eq, Hev.
    unfold path_of. rewrite H0. cbn [Z.ltb Z.compare]. cbn zeta.
    destruct (in_int _); [destruct (in_int _)|];
      do 2 eexists; (split; [reflexivity|apply dispatched_delivered]).
  - intros k p field Hk Hpos Hfield Hp Hq.
    rewrite observe_event_eq, Hev. unfold path_of. rewrite Hk.
    replace (0 <? k) with true by (zbool; lia).
    unfold c_str_at.
    replace (0 <=? event_pos + sizeof_event) with true
      by (zbool; unfold sizeof_event; lia).
    rewrite <- (take_drop (Z.to_nat k)
                  (drop (Z.to_nat (event_pos + sizeof_event)) event_buf)).
    rewrite <- Hfield. rewrite (c_str_take field _ p Hp Hq). cbn [fmap option_fmap option_map].
    cbn zeta.
    destruct (in_int _); [destruct (in_int _)|];
      do 2 eexists; (split; [reflexivity|apply dispatched_delivered]).
Qed.

Lemma name_of_dispatched_event_witness :
  let event_buf := zero_padded (pack [sample_delete_self; sample_create]) in
  (exists st' r,
     observe_event unit calm keeps_errno event_buf 48 0 (fresh 0) = (st', r)
     /\ dispatched st' = dispatched (fresh 0) ++ [(3, 1024, None)])
  /\ (exists st' r,
        observe_event unit calm keeps_errno event_buf 32 16 (fresh 0) = (st', r)
        /\ dispatched st' = dispatched (fresh 0)
                            ++ [(3, 256, Some [x61; x2e; x74; x78; x74])]).
Proof.
  intros event_buf. split.
  - apply (name_of_dispatched_event unit calm keeps_errno event_buf 48 0 (fresh 0)
             {| wd := 3; mask := 1024; cookie := 0; len := 0 |});
      reflexivity.
  - apply (proj2 (name_of_dispatched_event unit calm keeps_errno event_buf 32 16 (fresh 0)
                    {| wd := 3; mask := 256; cookie := 0; len := 16 |} eq_refl)
             16 5%nat (raw_name sample_create)).
    + reflexivity.
    + lia.
    + reflexivity.
    + reflexivity.
    + intros q Hq.
      destruct q as [|[|[|[|[|q]]]]]; simpl; try discriminate. lia.
Defined.

(** ** The outer loop *)

Section Outer.

Context {sink : Type}.
Variable onEvent : sink -> Z -> Z -> option (list byte) -> sink * bool.
Variable java_errno : sink -> Z -> Z.












End Outer.


(** ** Claims about the read loop *)

(** C4.  A read that fails with [EINTR] is followed by the next read:
    [observe] goes on as if entered afresh, with nothing but the [read] call
    added to the trace (no event, no log entry).  A read that fails with any
    other error ends [observe] after the log entry; whatever further reads
    would have returned plays no part. *)
Theorem interrupted_read_is_retried
    (sink : Type) (onEvent : sink -> Z -> Z -> option (list byte) -> sink * bool)
    (java_errno : sink -> Z -> Z)
    (fuel : nat) (reads : list read_result) (fd : Z) (event_buf : list byte)
    (st : state sink) :
  android_os_fileobserver_observe sink onEvent java_errno fuel (ReadError EINTR :: reads)
    fd event_buf st
  = android_os_fileobserver_observe sink onEvent java_errno fuel reads fd event_buf
      {| java := java st; exception_pending := exception_pending st;
         errno := EINTR; trace := trace st ++ [C_read fd] |}
  /\ forall e, e <> EINTR ->
       android_os_fileobserver_observe sink onEvent java_errno fuel (ReadError e :: reads)
         fd event_buf st
       = ({| java := java st; exception_pending := exception_pending st;
             errno := e;
             trace := trace st ++ [C_read fd; C_ALOGE short_event_msg] |},
          Stopped).
Proof.
  split.
  - reflexivity.
  - intros e He. simpl.
    replace (e =? EINTR) with false by (zbool; exact He).
    unfold ALOGE, emit. simpl. rewrite <- app_assoc. reflexivity.
Qed.

Lemma interrupted_read_is_retried_witness :
  android_os_fileobserver_observe unit calm keeps_errno 1
    [ReadError EINTR; ReadError 9; ReadBytes (pack [sample_create])] 7
    (zero_padded []) (fresh 0)
  = ({| java := tt; exception_pending := false; errno := 9;
        trace := [C_read 7; C_read 7; C_ALOGE short_event_msg] |}, Stopped).
Proof.
  rewrite (proj1 (interrupted_read_is_retried unit calm keeps_errno 1
                    [ReadError 9; ReadBytes (pack [sample_create])] 7
                    (zero_padded []) (fresh 0))).
  apply (proj2 (interrupted_read_is_retried unit calm keeps_errno 1
                  [ReadBytes (pack [sample_create])] 7 (zero_padded [])
                  {| java := tt; exception_pending := false; errno := EINTR;
                     trace := [C_read 7] |}) 9).
  unfold EINTR. lia.
Defined.



(** A read of fewer bytes than a header ends [observe], provided [errno] is
    not [EINTR] when the loop tests it. *)
Lemma short_read_is_fatal
    (sink : Type) (onEvent : sink -> Z -> Z -> option (list byte) -> sink * bool)
    (java_errno : sink -> Z -> Z)
    (fuel : nat) (reads : list read_result) (fd : Z) (event_buf : list byte)
    (st : state sink) (data : list byte) :
  Z.of_nat (length data) < sizeof_event ->
  errno st <> EINTR ->
  android_os_fileobserver_observe sink onEvent java_errno fuel (ReadBytes data :: reads)
    fd event_buf st
  = ({| java := java st; exception_pending := exception_pending st;
        errno := errno st;
        trace := trace st ++ [C_read fd; C_ALOGE short_event_msg] |}, Stopped).
Proof.
  intros Hshort Herr. simpl.
  rewrite take_ge by (unfold sizeof_event, sizeof_event_buf in *; lia).
  replace (Z.of_nat (length data) <? sizeof_event) with true
    by (zbool; exact Hshort).
  replace (errno st =? EINTR) with false by (zbool; exact Herr).
  unfold ALOGE, emit. simpl. rewrite <- app_assoc. reflexivity.
Qed.

(** C6 fails on the code after an interrupted read: [errno] still holds
    [EINTR] when the next read returns fewer bytes than a header without
    failing, and the loop takes that read for an interrupted one: it logs
    nothing and reads again. *)
Theorem short_read_after_interrupt_is_retried
    (sink : Type) (onEvent : sink -> Z -> Z -> option (list byte) -> sink * bool)
    (java_errno : sink -> Z -> Z)
    (fuel : nat) (reads : list read_result) (fd : Z) (event_buf : list byte)
    (st : state sink) (data : list byte) :
  Z.of_nat (length data) < sizeof_event ->
  android_os_fileobserver_observe sink onEvent java_errno fuel
    (ReadError EINTR :: ReadBytes data :: reads) fd event_buf st
  = android_os_fileobserver_observe sink onEvent java_errno fuel reads fd
      (data ++ drop (length data) event_buf)
      {| java := java st; exception_pending := exception_pending st;
         errno := EINTR; trace := trace st ++ [C_read fd; C_read fd] |}.
Proof.
  intros Hshort. simpl.
  rewrite take_ge by (unfold sizeof_event, sizeof_event_buf in *; lia).
  replace (Z.of_nat (length data) <? sizeof_event) with true
    by (zbool; exact Hshort).
  simpl. rewrite <- app_assoc. reflexivity.
Qed.

Lemma short_read_after_interrupt_is_retried_witness :
  android_os_fileobserver_observe unit calm keeps_errno 0 [ReadError EINTR; ReadBytes []] 7
    (zero_padded []) (fresh 0)
  = ({| java := tt; exception_pending := false; errno := EINTR;
        trace := [C_read 7; C_read 7] |}, Blocked).
Proof.
  apply (short_read_after_interrupt_is_retried unit calm keeps_errno 0 [] 7 (zero_padded [])
           (fresh 0) []).
  unfold sizeof_event. simpl. lia.
Defined.

(** ** Claims about watch registration *)

Lemma to_int32_of_jint wfd : in_int wfd = true -> to_int32 (to_uint32 wfd) = wfd.
Proof.
  intros H. apply in_int_spec in H.
  rewrite to_int32_to_uint32. apply to_int32_small. exact H.
Qed.

Lemma linux_rm_watch_unknown (k : gmap Z (gmap Z (list byte))) fd u :
  linux_watches k fd !! to_int32 u = None ->
  forall fd', linux_watches (linux_inotify_rm_watch k fd u).1 fd' = linux_watches k fd'.
Proof.
  unfold linux_watches, linux_inotify_rm_watch. intros H fd'.
  destruct (k !! fd) as [t|]; [|reflexivity].
  simpl in H. rewrite H. reflexivity.
Qed.

(** C7.  [stopWatching] on a handle that is not registered: the one thing it
    does is the call of [inotify_rm_watch], with the handle the caller gave
    (the cast to [uint32_t] keeps its 32 bits); the result of that call is
    dropped, so nothing is reported to the caller; and since the system call
    leaves the watch tables alone for a descriptor it does not know, so does
    [stopWatching].  The state of the thread that runs [observe] is no part of
    what the function works on. *)
Theorem stopWatching_unknown_handle
    (kernel : Type) (sys_inotify_rm_watch : kernel -> Z -> Z -> kernel * Z)
    (watches : kernel -> Z -> gmap Z (list byte)) :
  (forall k fd u,
      watches k fd !! to_int32 u = None ->
      forall fd', watches (sys_inotify_rm_watch k fd u).1 fd' = watches k fd') ->
  forall (fd wfd : Z) (w : world kernel),
    in_int wfd = true ->
    watches (os w) fd !! wfd = None ->
    let w' := android_os_fileobserver_stopWatching kernel sys_inotify_rm_watch
                fd wfd w in
    (forall fd', watches (os w') fd' = watches (os w) fd')
    /\ os w' = (sys_inotify_rm_watch (os w) fd (to_uint32 wfd)).1
    /\ calls w' = calls w ++ [C_inotify_rm_watch fd (to_uint32 wfd)]
    /\ to_int32 (to_uint32 wfd) = wfd.
Proof.
  intros Hos fd wfd w Hint Hunknown w'. subst w'.
  unfold android_os_fileobserver_stopWatching.
  pose proof (to_int32_of_jint wfd Hint) as Hcast.
  destruct (sys_inotify_rm_watch (os w) fd (to_uint32 wfd)) as [k r] eqn:E.
  cbn [os calls fst]. repeat split; try assumption.
  intros fd'. specialize (Hos (os w) fd (to_uint32 wfd)).
  rewrite Hcast, E in Hos. apply Hos. exact Hunknown.
Qed.

Lemma stopWatching_unknown_handle_witness :
  let w' := android_os_fileobserver_stopWatching _ linux_inotify_rm_watch
              7 (-5) sample_world in
  (forall fd', linux_watches (os w') fd' = linux_watches (os sample_world) fd')
  /\ os w' = (linux_inotify_rm_watch (os sample_world) 7 (to_uint32 (-5))).1
  /\ calls w' = calls sample_world ++ [C_inotify_rm_watch 7 (to_uint32 (-5))]
  /\ to_int32 (to_uint32 (-5)) = -5.
Proof.
  apply (stopWatching_unknown_handle _ linux_inotify_rm_watch linux_watches
           linux_rm_watch_unknown 7 (-5) sample_world).
  - reflexivity.
  - reflexivity.
Defined.

(** C8.  [release] on a negative descriptor does nothing: [close] is not
    called and the state is the one before, however often it is repeated. *)
Theorem release_invalid_channel
    (kernel : Type) (sys_close : kernel -> Z -> kernel * Z)
    (fd : Z) (w : world kernel) :
  fd < 0 ->
  release kernel sys_close fd w = w
  /\ release kernel sys_close fd (release kernel sys_close fd w) = w
  /\ ~ In (C_close fd) (drop (length (calls w)) (calls (release kernel sys_close fd w))).
Proof.
  intros Hneg.
  assert (release kernel sys_close fd w = w) as E.
  { unfold release.
    replace (0 <=? fd) with false by (zbool; exact Hneg).
    reflexivity. }
  rewrite !E. repeat split.
  rewrite drop_all. intros [].
Qed.

Lemma release_invalid_channel_witness :
  release _ linux_close (-1) sample_world = sample_world
  /\ release _ linux_close (-1) (release _ linux_close (-1) sample_world)
     = sample_world
  /\ ~ In (C_close (-1))
        (drop (length (calls sample_world))
              (calls (release _ linux_close (-1) sample_world))).
Proof.
  apply (release_invalid_channel _ linux_close (-1) sample_world). lia.
Defined.

(** C9.  [startWatching] on a negative descriptor returns -1 and calls
    nothing: neither [GetStringUTFChars] nor [inotify_add_watch].  Any other
    result is the one [inotify_add_watch] gave for a descriptor that is not
    negative. *)
Theorem startWatching_invalid_channel
    (kernel : Type)
    (sys_inotify_add_watch : kernel -> Z -> list byte -> Z -> kernel * Z)
    (fd : Z) (pathString : list byte) (mask : Z) (w : world kernel) :
  let run := android_os_fileobserver_startWatching kernel sys_inotify_add_watch
               fd pathString mask w in
  (fd < 0 -> run = (w, -1))
  /\ (run.2 <> -1 ->
      0 <= fd
      /\ run.2 = (sys_inotify_add_watch (os w) fd pathString mask).2
      /\ calls run.1 = calls w ++ [C_GetStringUTFChars;
                                   C_inotify_add_watch fd pathString mask;
                                   C_ReleaseStringUTFChars]).
Proof.
  intros run. subst run. unfold android_os_fileobserver_startWatching.
  destruct (0 <=? fd) eqn:E.
  - apply Z.leb_le in E. split; [lia|]. intros _.
    cbn [os calls].
    destruct (sys_inotify_add_watch (os w) fd pathString mask) as [k r].
    cbn [os calls fst snd]. rewrite <- !app_assoc. auto.
  - apply Z.leb_gt in E. split; [reflexivity|]. simpl. intros H.
    exfalso. apply H. reflexivity.
Qed.

Lemma startWatching_invalid_channel_witness :
  android_os_fileobserver_startWatching _ linux_inotify_add_watch (-1)
    [x2f; x74; x6d; x70] 256 sample_world = (sample_world, -1)
  /\ (0 <= 7
      /\ (android_os_fileobserver_startWatching _ linux_inotify_add_watch 7
            [x2f; x74; x6d; x70] 256 sample_world).2
         = (linux_inotify_add_watch (os sample_world) 7 [x2f; x74; x6d; x70] 256).2
      /\ calls (android_os_fileobserver_startWatching _ linux_inotify_add_watch 7
                  [x2f; x74; x6d; x70] 256 sample_world).1
         = calls sample_world ++ [C_GetStringUTFChars;
                                  C_inotify_add_watch 7 [x2f; x74; x6d; x70] 256;
                                  C_ReleaseStringUTFChars]).
Proof.
  split.
  - apply (proj1 (startWatching_invalid_channel _ linux_inotify_add_watch (-1)
                    [x2f; x74; x6d; x70] 256 sample_world)).
    lia.
  - apply (proj2 (startWatching_invalid_channel _ linux_inotify_add_watch 7
                    [x2f; x74; x6d; x70] 256 sample_world)).
    vm_compute. discriminate.
Defined.

(** ** Termination of the inner loop *)

Section Termination.

Context {sink : Type}.
Variable onEvent : sink -> Z -> Z -> option (list byte) -> sink * bool.
Variable java_errno : sink -> Z -> Z.

(** One pass hands over at most one event. *)
Lemma observe_event_count buf nb pos (st : state sink) :
  (length (dispatched (observe_event sink onEvent java_errno buf nb pos st).1)
   <= length (dispatched st) + 1)%nat.
Proof.
  rewrite observe_event_eq.
  destruct (load_event buf pos) as [ev|]; [|simpl; lia].
  destruct (path_of buf pos ev) as [path|]; [|simpl; lia].
  cbn zeta.
  destruct (in_int (nb - _)); [destruct (in_int (pos + _))|];
    cbn [fst]; rewrite dispatched_delivered, length_app; simpl; lia.
Qed.

(** A pass that comes to its end at a header that is reached moved the cursor
    by the header size at least, and the headers reached from the new cursor
    are among those reached before. *)
Lemma observe_event_advances buf passes nb pos (st st' : state sink) nb' pos' :
  headers_fit_int passes buf nb pos = true ->
  nb < sizeof_event * (Z.of_nat passes + 1) ->
  sizeof_event <= nb ->
  observe_event sink onEvent java_errno buf nb pos st = (st', Some (nb', pos')) ->
  exists passes',
    passes = S passes'
    /\ headers_fit_int passes' buf nb' pos' = true
    /\ nb' <= nb - sizeof_event /\ pos + sizeof_event <= pos'.
Proof.
  intros Hfit Hlt Hge. unfold sizeof_event in *.
  destruct passes as [|passes']; [lia|].
  cbn [headers_fit_int] in Hfit.
  replace (sizeof_event <=? nb) with true in Hfit by (zbool; unfold sizeof_event; lia).
  rewrite observe_event_eq.
  destruct (load_event buf pos) as [ev|] eqn:Hev; [|discriminate].
  apply andb_true_iff in Hfit as [Hsz Hrest]. apply Z.leb_le in Hsz.
  destruct (path_of buf pos ev) as [path|]; [|discriminate].
  cbn zeta.
  pose proof (load_event_len _ _ _ Hev) as Hl.
  assert (event_size_of ev = sizeof_event + len ev) as ->.
  { unfold event_size_of. apply to_int32_small.
    unfold INT_MIN, INT_MAX, sizeof_event in *. lia. }
  destruct (in_int (nb - _)); [destruct (in_int (pos + _))|]; try discriminate.
  intros [= _ <- <-]. exists passes'.
  split; [reflexivity|]. split; [exact Hrest|]. unfold sizeof_event. lia.
Qed.

(** While the loop runs, the headers still to be reached fit and the
    remaining count stays below the bound the passes left allow. *)
Lemma observe_events_running buf k :
  forall passes nb pos (st st1 : state sink) nb1 pos1,
    headers_fit_int passes buf nb pos = true ->
    nb < sizeof_event * (Z.of_nat passes + 1) ->
    observe_events sink onEvent java_errno k buf nb pos st = Running st1 nb1 pos1 ->
    exists passes1,
      headers_fit_int passes1 buf nb1 pos1 = true
      /\ nb1 < sizeof_event * (Z.of_nat passes1 + 1)
      /\ sizeof_event <= nb1.
Proof.
  induction k as [|k IH]; intros passes nb pos st st1 nb1 pos1 Hfit Hlt Hrun.
  - simpl in Hrun. destruct (sizeof_event <=? nb) eqn:E; [|discriminate].
    injection Hrun as _ <- <-. apply Z.leb_le in E. eauto.
  - destruct (Z.lt_ge_cases nb sizeof_event) as [Hsmall|Hge].
    { rewrite observe_events_exit in Hrun by exact Hsmall. discriminate. }
    rewrite observe_events_step in Hrun by exact Hge.
    destruct (observe_event sink onEvent java_errno buf nb pos st)
      as [st' [[nb' pos']|]] eqn:E; [|discriminate].
    destruct (observe_event_advances _ _ _ _ _ _ _ _ Hfit Hlt Hge E)
      as (passes' & -> & Hfit' & Hnb' & _).
    apply (IH passes' nb' pos' st' st1 nb1 pos1 Hfit'); [|exact Hrun].
    unfold sizeof_event in *. lia.
Qed.

Lemma observe_events_bounded buf fuel : forall passes nb pos (st : state sink),
  headers_fit_int passes buf nb pos = true ->
  nb < sizeof_event * (Z.of_nat passes + 1) ->
  (passes <= fuel)%nat ->
  match observe_events sink onEvent java_errno fuel buf nb pos st with
  | Exit st' _ _ | Undefined st' =>
      Z.of_nat (length (dispatched st'))
      <= Z.of_nat (length (dispatched st)) + Z.max 0 (nb / sizeof_event)
  | Running _ _ _ => False
  end.
Proof.
  induction fuel as [|fuel IH]; intros passes nb pos st Hfit Hlt Hfuel.
  - rewrite observe_events_exit by (unfold sizeof_event in *; lia). lia.
  - destruct (Z.lt_ge_cases nb sizeof_event) as [Hsmall|Hge].
    { rewrite observe_events_exit by exact Hsmall. lia. }
    rewrite observe_events_step by exact Hge.
    pose proof (observe_event_count buf nb pos st) as Hc.
    destruct (observe_event sink onEvent java_errno buf nb pos st)
      as [st' [[nb' pos']|]] eqn:E.
    + destruct (observe_event_advances _ _ _ _ _ _ _ _ Hfit Hlt Hge E)
        as (passes' & -> & Hfit' & Hadv & _).
      assert (nb' < sizeof_event * (Z.of_nat passes' + 1)) as Hlt'
        by (unfold sizeof_event in *; lia).
      specialize (IH passes' nb' pos' st' Hfit' Hlt' ltac:(lia)).
      cbn [fst] in Hc. unfold sizeof_event in *.
      assert (Z.max 0 (nb' / 16) + 1 <= Z.max 0 (nb / 16))
        by (Z.div_mod_to_equations; lia).
      destruct (observe_events sink onEvent java_errno fuel buf nb' pos' st');
        [lia|lia|exact IH].
    + cbn [fst] in Hc. unfold sizeof_event in *.
      assert (1 <= Z.max 0 (nb / 16)) by (Z.div_mod_to_equations; lia).
      lia.
Qed.

End Termination.

(** The headers of well-formed records packed back to back all fit, whatever
    bytes the records hold. *)
Lemma headers_fit_int_pack rs : forall pre post passes,
  forallb well_formed rs = true ->
  Z.of_nat (length (pre ++ pack rs ++ post)) <= sizeof_event_buf ->
  headers_fit_int passes (pre ++ pack rs ++ post)
    (Z.of_nat (length (pack rs))) (Z.of_nat (length pre)) = true.
Proof.
  induction rs as [|r rs IH]; intros pre post passes Hwf Hlen.
  - destruct passes; reflexivity.
  - destruct passes as [|passes]; [reflexivity|].
    simpl in Hwf. apply andb_true_iff in Hwf as [Hr Hrs].
    rewrite pack_cons in *. unfold sizeof_event_buf in *.
    assert (Z.of_nat (length (raw_bytes r ++ pack rs))
            = raw_size r + Z.of_nat (length (pack rs))) as Hl
      by (rewrite length_app, Nat2Z.inj_add, raw_bytes_length; reflexivity).
    assert (sizeof_event <= raw_size r) as Hge by (unfold raw_size; lia).
    assert (raw_size r <= 512) as Hle.
    { rewrite !length_app, !Nat2Z.inj_add, raw_bytes_length in Hlen. lia. }
    cbn [headers_fit_int].
    replace (sizeof_event <=? Z.of_nat (length (raw_bytes r ++ pack rs))) with true
      by (zbool; lia).
    replace (pre ++ (raw_bytes r ++ pack rs) ++ post)
      with (pre ++ raw_bytes r ++ (pack rs ++ post)) in *
      by (rewrite <- !app_assoc; reflexivity).
    rewrite load_event_raw
      by (try assumption; unfold raw_size, sizeof_event in *; lia).
    cbn [len]. change (sizeof_event + Z.of_nat (length (raw_name r))) with (raw_size r).
    replace (raw_size r <=? INT_MAX) with true by (zbool; unfold INT_MAX; lia).
    cbn [andb].
    replace (Z.of_nat (length (raw_bytes r ++ pack rs)) - raw_size r)
      with (Z.of_nat (length (pack rs))) by lia.
    replace (Z.of_nat (length pre) + raw_size r)
      with (Z.of_nat (length (pre ++ raw_bytes r)))
      by (rewrite length_app, Nat2Z.inj_add, raw_bytes_length; reflexivity).
    replace (pre ++ raw_bytes r ++ pack rs ++ post)
      with ((pre ++ raw_bytes r) ++ pack rs ++ post) in *
      by (rewrite <- !app_assoc; reflexivity).
    apply IH; assumption.
Qed.

Lemma endless_sample_event (st : state unit) :
  observe_event unit calm keeps_errno endless_sample 16 0 st
  = (delivered calm keeps_errno 1 2 (Some []) st, Some (16, 0)).
Proof.
  rewrite observe_event_eq.
  assert (load_event endless_sample 0
          = Some {| wd := 1; mask := 2; cookie := 0; len := 4294967280 |}) as ->
    by (vm_compute; reflexivity).
  assert (path_of endless_sample 0
            {| wd := 1; mask := 2; cookie := 0; len := 4294967280 |}
          = Some (Some [])) as ->
    by (vm_compute; reflexivity).
  reflexivity.
Qed.

Lemma endless_sample_runs fuel : forall st : state unit,
  exists st',
    observe_events unit calm keeps_errno fuel endless_sample 16 0 st = Running st' 16 0
    /\ length (dispatched st') = (length (dispatched st) + fuel)%nat.
Proof.
  induction fuel as [|fuel IH]; intros st.
  - exists st. split; [reflexivity|lia].
  - rewrite observe_events_step by (unfold sizeof_event; lia).
    rewrite endless_sample_event.
    destruct (IH (delivered calm keeps_errno 1 2 (Some []) st)) as (st' & Hrun & Hlen).
    exists st'. split; [exact Hrun|].
    rewrite Hlen, dispatched_delivered, length_app. simpl. lia.
Qed.

(** C10, as stated, fails: on [endless_sample], a read of 16 bytes, the
    computed [event_size] is 0, the loop never comes to an end, and it hands
    over more than 16 / 16 = 1 events (as many as it is given passes). *)
Lemma zero_event_size_loops_forever :
  sizeof_event <= 16
  /\ ~ inner_loop_ends calm keeps_errno endless_sample 16 (fresh 0)
  /\ forall fuel, exists st',
       observe_events unit calm keeps_errno fuel endless_sample 16 0 (fresh 0) = Running st' 16 0
       /\ length (dispatched st') = fuel.
Proof.
  split; [unfold sizeof_event; lia|]. split.
  - intros [fuel H].
    destruct (endless_sample_runs fuel (fresh 0)) as (st' & Hrun & _).
    rewrite Hrun in H. exact H.
  - intros fuel. destruct (endless_sample_runs fuel (fresh 0)) as (st' & Hrun & Hlen).
    exists st'. split; [exact Hrun|exact Hlen].
Qed.

(** C10, amended.  When none of the headers the loop reaches has a size plus
    [len] that leaves the range of [int], then for a read of [N >= 16] bytes
    every pass of the inner loop that comes to its end lowers the remaining
    count and raises the cursor by the header size at least, the loop is over
    after at most [N / 16] passes, and at most [N / 16] events are handed
    over. *)
Theorem inner_loop_terminates_when_sizes_fit
    (sink : Type) (onEvent : sink -> Z -> Z -> option (list byte) -> sink * bool)
    (java_errno : sink -> Z -> Z)
    (event_buf : list byte) (N : Z) (st : state sink) :
  headers_fit_int (Z.to_nat (N / sizeof_event)) event_buf N 0 = true ->
  sizeof_event <= N <= sizeof_event_buf ->
  (forall k (st1 st2 : state sink) nb1 pos1 nb2 pos2,
      observe_events sink onEvent java_errno k event_buf N 0 st
      = Running st1 nb1 pos1 ->
      observe_event sink onEvent java_errno event_buf nb1 pos1 st1
      = (st2, Some (nb2, pos2)) ->
      nb2 <= nb1 - sizeof_event /\ pos1 + sizeof_event <= pos2)
  /\ (forall fuel, (Z.to_nat (N / sizeof_event) <= fuel)%nat ->
      match observe_events sink onEvent java_errno fuel event_buf N 0 st with
      | Exit st' _ _ | Undefined st' =>
          (length (dispatched st')
           <= length (dispatched st) + Z.to_nat (N / sizeof_event))%nat
      | Running _ _ _ => False
      end).
Proof.
  intros Hfit HN.
  assert (0 <= N / sizeof_event)
    by (unfold sizeof_event in *; Z.div_mod_to_equations; lia).
  assert (N < sizeof_event * (Z.of_nat (Z.to_nat (N / sizeof_event)) + 1)) as Hlt.
  { rewrite Z2Nat.id by assumption.
    unfold sizeof_event in *. Z.div_mod_to_equations. lia. }
  split.
  - intros k st1 st2 nb1 pos1 nb2 pos2 Hrun Hpass.
    destruct (observe_events_running onEvent java_errno event_buf k _ _ _ _ _ _ _
                Hfit Hlt Hrun) as (passes1 & Hfit1 & Hlt1 & Hge1).
    destruct (observe_event_advances onEvent java_errno _ _ _ _ _ _ _ _
                Hfit1 Hlt1 Hge1 Hpass) as (_ & _ & _ & Hadv).
    exact Hadv.
  - intros fuel Hfuel.
    pose proof (observe_events_bounded onEvent java_errno event_buf fuel _ N 0 st
                  Hfit Hlt Hfuel) as Hb.
    destruct (observe_events sink onEvent java_errno fuel event_buf N 0 st);
      [| |exact Hb]; lia.
Qed.

Lemma inner_loop_terminates_when_sizes_fit_witness :
  let event_buf :=
    zero_padded (pack [sample_delete_self; sample_moved_to; sample_overflow]) in
  match observe_events unit touchy keeps_errno 4 event_buf 64 0 (fresh 0) with
  | Exit st' _ _ | Undefined st' =>
      (length (dispatched st') <= length (dispatched (fresh 0)) + Z.to_nat (64 / 16))%nat
  | Running _ _ _ => False
  end.
Proof.
  intros event_buf.
  assert (headers_fit_int (Z.to_nat (64 / sizeof_event)) event_buf 64 0 = true)
    as Hfit by (vm_compute; reflexivity).
  assert (sizeof_event <= 64 <= sizeof_event_buf) as HN
    by (unfold sizeof_event, sizeof_event_buf; lia).
  apply (proj2 (inner_loop_terminates_when_sizes_fit unit touchy keeps_errno
                  event_buf 64 (fresh 0) Hfit HN) 4%nat).
  vm_compute. lia.
Defined.

(** ** What every run of the loop keeps *)

(** A relation between the state before and a state after that holds across
    each step of [observe] holds across the whole run. *)
Section Stepwise.

Context {sink : Type}.
Variable onEvent : sink -> Z -> Z -> option (list byte) -> sink * bool.
Variable java_errno : sink -> Z -> Z.
Variable fd : Z.
Variable R : state sink -> state sink -> Prop.

Hypothesis R_refl : forall st, R st st.
Hypothesis R_trans : forall st1 st2 st3, R st1 st2 -> R st2 st3 -> R st1 st3.
Hypothesis R_delivered : forall w m path st, R st (delivered onEvent java_errno w m path st).
Hypothesis R_read : forall r buf st, R st (read sink fd r buf st).1.
Hypothesis R_log : forall st, R st (ALOGE sink short_event_msg st).1.

Lemma observe_event_stepwise buf nb pos (st : state sink) :
  R st (observe_event sink onEvent java_errno buf nb pos st).1.
Proof.
  rewrite observe_event_eq.
  destruct (load_event buf pos) as [ev|]; [|apply R_refl].
  destruct (path_of buf pos ev) as [path|]; [|apply R_refl].
  cbn zeta.
  destruct (in_int (nb - _)); [destruct (in_int (pos + _))|]; apply R_delivered.
Qed.

Lemma observe_events_stepwise fuel buf : forall nb pos (st : state sink),
  match observe_events sink onEvent java_errno fuel buf nb pos st with
  | Exit st' _ _ | Undefined st' | Running st' _ _ => R st st'
  end.
Proof.
  induction fuel as [|fuel IH]; intros nb pos st; simpl.
  - destruct (sizeof_event <=? nb); apply R_refl.
  - destruct (sizeof_event <=? nb); [|apply R_refl].
    pose proof (observe_event_stepwise buf nb pos st) as H1.
    destruct (observe_event sink onEvent java_errno buf nb pos st) as [s [[nb' pos']|]];
      simpl in H1; [|exact H1].
    specialize (IH nb' pos' s).
    destruct (observe_events sink onEvent java_errno fuel buf nb' pos' s);
      eapply R_trans; eassumption.
Qed.

Lemma observe_stepwise fuel reads : forall buf (st : state sink),
  R st (android_os_fileobserver_observe sink onEvent java_errno fuel reads fd buf st).1.
Proof.
  induction reads as [|r reads IH]; intros buf st; simpl; [apply R_refl|].
  pose proof (R_read r buf st) as Hr.
  destruct (read sink fd r buf st) as [s [[nb buf1]|]]; simpl in Hr; [|exact Hr].
  destruct (nb <? sizeof_event).
  - destruct (errno s =? EINTR).
    + eapply R_trans; [exact Hr|apply IH].
    + eapply R_trans; [exact Hr|apply R_log].
  - pose proof (observe_events_stepwise fuel buf1 nb 0 s) as Ho.
    destruct (observe_events sink onEvent java_errno fuel buf1 nb 0 s); simpl.
    + eapply R_trans; [exact Hr|]. eapply R_trans; [exact Ho|apply IH].
    + eapply R_trans; eassumption.
    + eapply R_trans; eassumption.
Qed.

End Stepwise.

Lemma live_refs_app t1 t2 : live_refs (t1 ++ t2) = live_refs t1 + live_refs t2.
Proof.
  induction t1 as [|c t1 IH]; simpl; [lia|].
  destruct c; rewrite ?IH; lia.
Qed.

Lemma live_refs_of_event w m path threw :
  live_refs (calls_of_event w m path threw) = 0.
Proof. destruct path, threw; reflexivity. Qed.

(** X2.  Every string the loop creates it also deletes: whatever the reads
    bring and however the run ends, the trace of [observe] holds as many
    [DeleteLocalRef] as [NewStringUTF] calls more than before. *)
Theorem observe_deletes_its_local_refs
    (sink : Type) (onEvent : sink -> Z -> Z -> option (list byte) -> sink * bool)
    (java_errno : sink -> Z -> Z)
    (fuel : nat) (reads : list read_result) (fd : Z) (event_buf : list byte)
    (st : state sink) :
  live_refs (trace (android_os_fileobserver_observe sink onEvent java_errno fuel reads fd
                      event_buf st).1)
  = live_refs (trace st).
Proof.
  apply (observe_stepwise onEvent java_errno fd
           (fun st1 st2 => live_refs (trace st2) = live_refs (trace st1))).
  - reflexivity.
  - intros st1 st2 st3 H1 H2. congruence.
  - intros w m path s. unfold delivered. cbn [trace].
    rewrite live_refs_app, live_refs_of_event. lia.
  - intros r buf s. destruct r; simpl; rewrite live_refs_app; simpl; lia.
  - intros s. simpl. rewrite live_refs_app. simpl. lia.
Qed.

Lemma loop_call_of_event fd w m path threw :
  forallb (loop_call fd) (calls_of_event w m path threw) = true.
Proof. destruct path, threw; reflexivity. Qed.

(** X3.  [observe] calls nothing but [read] on the descriptor it was given,
    the log and the JNI functions of the loop body: the calls it adds to the
    trace hold no [close], no [inotify_add_watch], no [inotify_rm_watch] and no
    [read] on another descriptor. *)
Theorem observe_calls_only_read_and_jni
    (sink : Type) (onEvent : sink -> Z -> Z -> option (list byte) -> sink * bool)
    (java_errno : sink -> Z -> Z)
    (fuel : nat) (reads : list read_result) (fd : Z) (event_buf : list byte)
    (st : state sink) :
  exists added,
    trace (android_os_fileobserver_observe sink onEvent java_errno fuel reads fd event_buf st).1
    = trace st ++ added
    /\ forallb (loop_call fd) added = true
    /\ (forall fd', ~ In (C_close fd') added)
    /\ (forall fd' path m, ~ In (C_inotify_add_watch fd' path m) added)
    /\ (forall fd' w, ~ In (C_inotify_rm_watch fd' w) added)
    /\ (forall fd', In (C_read fd') added -> fd' = fd).
Proof.
  assert (exists added,
             trace (android_os_fileobserver_observe sink onEvent java_errno fuel reads fd
                      event_buf st).1 = trace st ++ added
             /\ forallb (loop_call fd) added = true) as (added & Ht & Hall).
  { apply (observe_stepwise onEvent java_errno fd
             (fun st1 st2 => exists added,
                  trace st2 = trace st1 ++ added
                  /\ forallb (loop_call fd) added = true)).
    - intros s. exists []. rewrite app_nil_r. auto.
    - intros st1 st2 st3 (a1 & H1 & F1) (a2 & H2 & F2).
      exists (a1 ++ a2). rewrite H2, H1, <- app_assoc, forallb_app, F1, F2. auto.
    - intros w m path s. eexists. split; [reflexivity|apply loop_call_of_event].
    - intros r buf s. exists [C_read fd].
      split; [destruct r; reflexivity|]. simpl. rewrite Z.eqb_refl. reflexivity.
    - intros s. exists [C_ALOGE short_event_msg]. auto. }
  exists added. split; [exact Ht|]. split; [exact Hall|].
  rewrite forallb_forall in Hall.
  repeat split.
  - intros fd' Hin. apply Hall in Hin. discriminate.
  - intros fd' path m Hin. apply Hall in Hin. discriminate.
  - intros fd' w Hin. apply Hall in Hin. discriminate.
  - intros fd' Hin. apply Hall in Hin. simpl in Hin. apply Z.eqb_eq in Hin. exact Hin.
Qed.

(** ** Whole runs of [observe] *)

Lemma pack_nonempty_size r rs :
  sizeof_event <= Z.of_nat (length (pack (r :: rs))).
Proof.
  rewrite pack_cons, length_app, Nat2Z.inj_add, raw_bytes_length.
  unfold raw_size. lia.
Qed.

Lemma observe_whole_reads_run {sink : Type}
    (onEvent : sink -> Z -> Z -> option (list byte) -> sink * bool)
    (java_errno : sink -> Z -> Z)
    (fuel : nat) (fd : Z) (batches : list (list raw_event)) :
  forall (event_buf : list byte) (st : state sink),
    Z.of_nat (length event_buf) = sizeof_event_buf ->
    Forall (fun rs => forallb well_formed rs = true /\ rs <> []
                      /\ Z.of_nat (length (pack rs)) <= sizeof_event_buf
                      /\ (length rs <= fuel)%nat) batches ->
    (android_os_fileobserver_observe sink onEvent java_errno fuel
       (map (fun rs => ReadBytes (pack rs)) batches) fd event_buf st).2 = Blocked
    /\ dispatched (android_os_fileobserver_observe sink onEvent java_errno fuel
                     (map (fun rs => ReadBytes (pack rs)) batches) fd event_buf st).1
       = dispatched st ++ concat (map (map event_of) batches).
Proof.
  induction batches as [|rs batches IH]; intros buf st Hbuf Hall.
  - simpl. rewrite app_nil_r. auto.
  - apply Forall_cons in Hall as [(Hwf & Hne & Hsz & Hfuel) Hall].
    unfold sizeof_event_buf in *.
    cbn [map android_os_fileobserver_observe read].
    rewrite take_ge by (unfold sizeof_event_buf; lia).
    assert (sizeof_event <= Z.of_nat (length (pack rs))) as Hge
      by (destruct rs as [|r rs]; [congruence|apply pack_nonempty_size]).
    replace (Z.of_nat (length (pack rs)) <? sizeof_event) with false
      by (symmetry; apply Z.ltb_ge; exact Hge).
    set (st1 := {| java := java st; exception_pending := exception_pending st;
                   errno := errno st; trace := trace st ++ [C_read fd] |}).
    set (buf1 := pack rs ++ drop (length (pack rs)) buf).
    assert (Z.of_nat (length buf1) = 512) as Hbuf1.
    { subst buf1. rewrite length_app, length_drop. lia. }
    pose proof (observe_events_pack onEvent java_errno rs [] (drop (length (pack rs)) buf)
                  fuel st1 Hwf) as Hrun.
    cbn [app length] in Hrun. change (Z.of_nat 0) with 0 in Hrun.
    fold buf1 in Hrun. rewrite Hrun by (unfold sizeof_event_buf; lia).
    destruct (IH buf1 (deliver_all onEvent java_errno rs st1) Hbuf1 Hall) as (Hs & Hd).
    split; [exact Hs|].
    rewrite Hd, dispatched_deliver_all. cbn [map concat].
    rewrite <- app_assoc. f_equal.
    unfold dispatched, st1. cbn [trace]. rewrite omap_app. simpl.
    apply app_nil_r.
Qed.

(** X1.  When every read brings one or more well-formed records, packed and
    whole, [observe] hands the events of all reads to [onEvent] in the order
    of the reads and of the records within each read, and ends up waiting in
    the next [read]: it does not return, whatever the Java code does to
    [errno]. *)
Theorem observe_whole_reads
    (sink : Type) (onEvent : sink -> Z -> Z -> option (list byte) -> sink * bool)
    (java_errno : sink -> Z -> Z)
    (fuel : nat) (fd : Z) (batches : list (list raw_event))
    (event_buf : list byte) (st : state sink) :
  Z.of_nat (length event_buf) = sizeof_event_buf ->
  Forall (fun rs => forallb well_formed rs = true /\ rs <> []
                    /\ Z.of_nat (length (pack rs)) <= sizeof_event_buf
                    /\ (length rs <= fuel)%nat) batches ->
  let run := android_os_fileobserver_observe sink onEvent java_errno fuel
               (map (fun rs => ReadBytes (pack rs)) batches) fd event_buf st in
  run.2 = Blocked
  /\ dispatched run.1 = dispatched st ++ concat (map (map event_of) batches).
Proof.
  intros Hbuf Hall run. subst run.
  apply observe_whole_reads_run; assumption.
Qed.

Lemma observe_whole_reads_witness :
  let run := android_os_fileobserver_observe unit touchy leaves_EINTR 2
               [ReadBytes (pack [sample_create; sample_delete_self]);
                ReadBytes (pack [sample_create])] 7 (zero_padded []) (fresh 0) in
  run.2 = Blocked
  /\ dispatched run.1
     = dispatched (fresh 0)
       ++ concat (map (map event_of)
                      [[sample_create; sample_delete_self]; [sample_create]]).
Proof.
  apply (observe_whole_reads unit touchy leaves_EINTR 2 7
           [[sample_create; sample_delete_self]; [sample_create]]
           (zero_padded []) (fresh 0)).
  - reflexivity.
  - repeat constructor; try discriminate; vm_compute; try discriminate; lia.
Defined.

(** X4.  [observe] returns only through its log entry: when it has returned,
    the last two calls are a [read] and the log of the short event, and [errno]
    is not [EINTR].  Reads of 16 bytes or more never make it return. *)
Theorem observe_returns_only_after_log
    (sink : Type) (onEvent : sink -> Z -> Z -> option (list byte) -> sink * bool)
    (java_errno : sink -> Z -> Z)
    (fuel : nat) (reads : list read_result) (fd : Z) (event_buf : list byte)
    (st : state sink) :
  let run := android_os_fileobserver_observe sink onEvent java_errno fuel reads fd
               event_buf st in
  (run.2 = Stopped ->
   (exists t, trace run.1 = t ++ [C_read fd; C_ALOGE short_event_msg])
   /\ errno run.1 <> EINTR)
  /\ (Forall (fun r => exists data,
                  r = ReadBytes data /\ sizeof_event <= Z.of_nat (length data))
             reads ->
      run.2 <> Stopped).
Proof.
  cbn zeta. revert event_buf st.
  induction reads as [|r reads IH]; intros buf st.
  - simpl. split; [discriminate|]. intros _. discriminate.
  - cbn [android_os_fileobserver_observe].
    destruct (read sink fd r buf st) as [s [[nb buf1]|]] eqn:Er.
    2:{ split; [discriminate|]. intros _. discriminate. }
    destruct (nb <? sizeof_event) eqn:Enb.
    + destruct (errno s =? EINTR) eqn:Ee.
      * split; [apply IH|]. intros Hall.
        apply Forall_cons in Hall as [(data & -> & Hlen) _].
        exfalso. apply Z.ltb_lt in Enb. simpl in Er. injection Er as _ <- _.
        unfold sizeof_event, sizeof_event_buf in *.
        rewrite length_take in Enb. lia.
      * split.
        -- intros _. split.
           ++ exists (trace st). simpl.
              assert (trace s = trace st ++ [C_read fd]) as ->
                by (destruct r; simpl in Er; injection Er as <- _; reflexivity).
              rewrite <- app_assoc. reflexivity.
           ++ simpl. apply Z.eqb_neq. exact Ee.
        -- intros Hall.
           apply Forall_cons in Hall as [(data & -> & Hlen) _].
           exfalso. apply Z.ltb_lt in Enb. simpl in Er. injection Er as _ <- _.
           unfold sizeof_event, sizeof_event_buf in *.
           rewrite length_take in Enb. lia.
    + destruct (observe_events sink onEvent java_errno fuel buf1 nb 0 s).
      * split; [apply IH|]. intros Hall.
        apply Forall_cons in Hall as [_ Hall]. apply IH. exact Hall.
      * split; [discriminate|]. intros _. discriminate.
      * split; [discriminate|]. intros _. discriminate.
Qed.

Lemma observe_returns_only_after_log_witness :
  ((exists t,
       trace (android_os_fileobserver_observe unit calm keeps_errno 1
                [ReadBytes (pack [sample_create]); ReadError 9] 7
                (zero_padded []) (fresh 0)).1
       = t ++ [C_read 7; C_ALOGE short_event_msg])
   /\ errno (android_os_fileobserver_observe unit calm keeps_errno 1
               [ReadBytes (pack [sample_create]); ReadError 9] 7
               (zero_padded []) (fresh 0)).1 <> EINTR)
  /\ (android_os_fileobserver_observe unit calm keeps_errno 1
        [ReadBytes (pack [sample_create]); ReadBytes (pack [sample_delete_self])] 7
        (zero_padded []) (fresh 0)).2 <> Stopped.
Proof.
  split.
  - apply (proj1 (observe_returns_only_after_log unit calm keeps_errno 1
                    [ReadBytes (pack [sample_create]); ReadError 9] 7
                    (zero_padded []) (fresh 0))).
    reflexivity.
  - apply (proj2 (observe_returns_only_after_log unit calm keeps_errno 1
                    [ReadBytes (pack [sample_create]);
                     ReadBytes (pack [sample_delete_self])] 7
                    (zero_padded []) (fresh 0))).
    repeat constructor.
    + exists (pack [sample_create]). split; [reflexivity|vm_compute; discriminate].
    + exists (pack [sample_delete_self]). split; [reflexivity|vm_compute; discriminate].
Defined.

(** X5.  The cursor and the remaining count stay in step: whatever the bytes
    in [event_buf], as long as the inner loop runs without an undefined
    operation the sum of [num_bytes] and [event_pos] is the one it started
    with; the loop is left with fewer than 16 bytes remaining by that count. *)
Theorem cursor_and_count_in_step
    (sink : Type) (onEvent : sink -> Z -> Z -> option (list byte) -> sink * bool)
    (java_errno : sink -> Z -> Z)
    (fuel : nat) (event_buf : list byte) (num_bytes event_pos : Z)
    (st : state sink) :
  match observe_events sink onEvent java_errno fuel event_buf num_bytes event_pos st with
  | Exit _ nb pos => nb + pos = num_bytes + event_pos /\ nb < sizeof_event
  | Running _ nb pos => nb + pos = num_bytes + event_pos /\ sizeof_event <= nb
  | Undefined _ => True
  end.
Proof.
  revert num_bytes event_pos st.
  induction fuel as [|fuel IH]; intros nb pos st; simpl.
  - destruct (sizeof_event <=? nb) eqn:E;
      [apply Z.leb_le in E|apply Z.leb_gt in E]; auto.
  - destruct (sizeof_event <=? nb) eqn:E; [|apply Z.leb_gt in E; auto].
    rewrite observe_event_eq.
    destruct (load_event event_buf pos) as [ev|]; [|exact I].
    destruct (path_of event_buf pos ev) as [path|]; [|exact I].
    cbn zeta.
    destruct (in_int (nb - _)); [destruct (in_int (pos + _))|]; try exact I.
    specialize (IH (nb - event_size_of ev) (pos + event_size_of ev)
                  (delivered onEvent java_errno (wd ev) (mask ev) path st)).
    destruct (observe_events sink onEvent java_errno fuel event_buf _ _ _); try exact I;
      (split; [lia|apply IH]).
Qed.

(** X6.  There is no limit to the retries: after any number of reads in a row
    that failed with [EINTR], [observe] goes on with the next read, having
    done nothing but these [read] calls. *)
Theorem interruptions_retried_without_limit
    (sink : Type) (onEvent : sink -> Z -> Z -> option (list byte) -> sink * bool)
    (java_errno : sink -> Z -> Z)
    (n : nat) (fuel : nat) (reads : list read_result) (fd : Z)
    (event_buf : list byte) (st : state sink) :
  android_os_fileobserver_observe sink onEvent java_errno fuel
    (replicate (S n) (ReadError EINTR) ++ reads) fd event_buf st
  = android_os_fileobserver_observe sink onEvent java_errno fuel reads fd event_buf
      {| java := java st; exception_pending := exception_pending st;
         errno := EINTR; trace := trace st ++ replicate (S n) (C_read fd) |}.
Proof.
  revert st. induction n as [|n IH]; intros st.
  - reflexivity.
  - change (replicate (S (S n)) (ReadError EINTR) ++ reads)
      with (ReadError EINTR :: (replicate (S n) (ReadError EINTR) ++ reads)).
    cbn [android_os_fileobserver_observe read].
    change (-1 <? sizeof_event) with true. cbn [errno]. change (EINTR =? EINTR) with true.
    cbn iota. rewrite IH. cbn [java exception_pending trace].
    rewrite <- app_assoc. reflexivity.
Qed.

(** X7.  The name handed to [onEvent] runs to the first NUL behind the
    header, whatever [len] says: [len] only decides between a null name and a
    name.  A name field without a NUL gives a name that is longer than
    [len]. *)
Theorem name_runs_to_first_nul
    (sink : Type) (onEvent : sink -> Z -> Z -> option (list byte) -> sink * bool)
    (java_errno : sink -> Z -> Z)
    (event_buf : list byte) (num_bytes event_pos : Z) (st : state sink)
    (event : inotify_event) (p : nat) :
  load_event event_buf event_pos = Some event ->
  0 < len event ->
  drop (Z.to_nat (event_pos + sizeof_event)) event_buf !! p = Some x00 ->
  (forall q, (q < p)%nat ->
     drop (Z.to_nat (event_pos + sizeof_event)) event_buf !! q <> Some x00) ->
  exists st' r,
    observe_event sink onEvent java_errno event_buf num_bytes event_pos st = (st', r)
    /\ dispatched st'
       = dispatched st
         ++ [(wd event, mask event,
              Some (take p (drop (Z.to_nat (event_pos + sizeof_event)) event_buf)))].
Proof.
  intros Hev Hlen Hp Hq.
  pose proof (load_event_pos _ _ _ Hev) as Hp0.
  rewrite observe_event_eq, Hev. unfold path_of.
  replace (0 <? len event) with true by (zbool; lia).
  unfold c_str_at.
  replace (0 <=? event_pos + sizeof_event) with true
    by (zbool; unfold sizeof_event; lia).
  pose proof (c_str_take _ [] p Hp Hq) as Hc. rewrite app_nil_r in Hc.
  rewrite Hc. cbn [fmap option_fmap option_map]. cbn zeta.
  destruct (in_int _); [destruct (in_int _)|];
    do 2 eexists; (split; [reflexivity|apply dispatched_delivered]).
Qed.

Lemma name_runs_to_first_nul_witness :
  exists st' r,
    observe_event unit calm keeps_errno unterminated_sample 20 0 (fresh 0) = (st', r)
    /\ dispatched st'
       = dispatched (fresh 0)
         ++ [(3, 256, Some [x61; x62; x63; x64; x65; x66])].
Proof.
  apply (name_runs_to_first_nul unit calm keeps_errno unterminated_sample 20 0 (fresh 0)
           {| wd := 3; mask := 256; cookie := 0; len := 4 |} 6%nat).
  - reflexivity.
  - simpl. lia.
  - reflexivity.
  - intros q Hq.
    destruct q as [|[|[|[|[|[|q]]]]]]; simpl; try discriminate. lia.
Defined.

(** ** Loading the library *)

Lemma load_logs_app t1 t2 : load_logs (t1 ++ t2) = load_logs t1 ++ load_logs t2.
Proof. apply omap_app. Qed.

(** X8.  [JNI_OnLoad] returns [JNI_VERSION_1_4] or -1, and the former exactly
    when [GetEnv] succeeded, the class [ObserverThread] was found and
    [RegisterNatives] took the five natives; whether [onEvent] was found plays
    no part.  It fails without a log entry exactly when [GetEnv] failed. *)
Theorem JNI_OnLoad_result (vm : jvm) (g : globals) :
  let run := JNI_OnLoad vm g in
  (run.2 = JNI_VERSION_1_4 \/ run.2 = -1)
  /\ (run.2 = JNI_VERSION_1_4 <->
      vm_GetEnv vm JNI_VERSION_1_4 = JNI_OK
      /\ exists clazz,
           vm_FindClass vm observer_class = Some clazz
           /\ 0 <= vm_RegisterNatives vm clazz sMethods 5)
  /\ (load_logs (load_trace run.1) = load_logs (load_trace g) <->
      run.2 = JNI_VERSION_1_4 \/ vm_GetEnv vm JNI_VERSION_1_4 <> JNI_OK).
Proof.
  cbn zeta. unfold JNI_OnLoad.
  assert (forall l x : list string, l ++ x = l <-> x = []) as Happ.
  { intros l x. split; [|intros ->; apply app_nil_r].
    intros H. apply (app_inv_head l). rewrite app_nil_r. exact H. }
  destruct (vm_GetEnv vm JNI_VERSION_1_4 =? JNI_OK) eqn:Eenv.
  - apply Z.eqb_eq in Eenv.
    destruct (vm_FindClass vm observer_class) as [clazz|] eqn:Ecls.
    + change (Z.of_nat (length sMethods)) with 5.
      destruct (0 <=? vm_RegisterNatives vm clazz sMethods 5) eqn:Ereg;
        [apply Z.leb_le in Ereg|apply Z.leb_gt in Ereg];
        cbn [fst snd load_emit load_trace method_onEvent];
        rewrite !load_logs_app, <- !app_assoc, Happ; cbn.
      * split; [auto|]. split; [|intuition].
        split; [|reflexivity]. intros _. split; [exact Eenv|].
        exists clazz. auto.
      * split; [auto|]. split.
        -- split; [discriminate|].
           intros (_ & c & [= <-] & Hc). lia.
        -- split; [discriminate|]. intros [H|H]; [discriminate|contradiction].
    + cbn [fst snd load_emit load_trace method_onEvent].
      rewrite !load_logs_app, <- !app_assoc, Happ. cbn.
      split; [auto|]. split.
      * split; [discriminate|]. intros (_ & c & H & _). discriminate.
      * split; [discriminate|]. intros [H|H]; [discriminate|contradiction].
  - apply Z.eqb_neq in Eenv.
    cbn [fst snd load_emit load_trace method_onEvent].
    rewrite !load_logs_app, Happ. cbn.
    split; [auto|]. split.
    + split; [discriminate|]. intros [H _]. contradiction.
    + split; [auto|reflexivity].
Qed.

Lemma JNI_OnLoad_result_witness :
  (JNI_OnLoad sample_jvm not_loaded).2 = JNI_VERSION_1_4
  /\ load_logs (load_trace (JNI_OnLoad sample_jvm not_loaded).1)
     = load_logs (load_trace not_loaded).
Proof.
  assert ((JNI_OnLoad sample_jvm not_loaded).2 = JNI_VERSION_1_4) as H.
  { apply (proj1 (proj2 (JNI_OnLoad_result sample_jvm not_loaded))).
    split; [reflexivity|]. exists 11. split; [reflexivity|]. simpl. lia. }
  split; [exact H|].
  apply (proj2 (proj2 (JNI_OnLoad_result sample_jvm not_loaded))).
  left. exact H.
Defined.

(** X9.  Whenever the class is found, [JNI_OnLoad] stores in [method_onEvent]
    what [GetMethodID] returns for [onEvent], be it [NULL] and whether or not
    [RegisterNatives] succeeded, and its last call deletes the reference to
    the class.  When [GetEnv] fails or the class is missing, [method_onEvent]
    keeps its value and [RegisterNatives] is not called. *)
Theorem JNI_OnLoad_method_lookup (vm : jvm) (g : globals) :
  let run := JNI_OnLoad vm g in
  (forall clazz,
      vm_GetEnv vm JNI_VERSION_1_4 = JNI_OK ->
      vm_FindClass vm observer_class = Some clazz ->
      method_onEvent run.1 = vm_GetMethodID vm clazz "onEvent" "(IILjava/lang/String;)V"
      /\ exists t,
           load_trace run.1
           = load_trace g ++ t
             ++ [L_GetMethodID clazz "onEvent" "(IILjava/lang/String;)V";
                 L_DeleteLocalRef clazz])
  /\ (vm_GetEnv vm JNI_VERSION_1_4 <> JNI_OK
      \/ vm_FindClass vm observer_class = None ->
      method_onEvent run.1 = method_onEvent g
      /\ exists t,
           load_trace run.1 = load_trace g ++ t
           /\ forall c ms n, ~ In (L_RegisterNatives c ms n) t).
Proof.
  cbn zeta. unfold JNI_OnLoad. split.
  - intros clazz Henv Hcls.
    replace (vm_GetEnv vm JNI_VERSION_1_4 =? JNI_OK) with true
      by (symmetry; apply Z.eqb_eq; exact Henv).
    rewrite Hcls.
    destruct (0 <=? vm_RegisterNatives vm clazz sMethods _);
      cbn [fst snd load_emit load_trace method_onEvent];
      (split; [reflexivity|]); rewrite <- !app_assoc; eexists; simpl;
      repeat f_equal.
    + instantiate (1 := [L_GetEnv JNI_VERSION_1_4; L_FindClass observer_class;
                         L_RegisterNatives clazz sMethods 5]).
      reflexivity.
    + instantiate (1 := [L_GetEnv JNI_VERSION_1_4; L_FindClass observer_class;
                         L_RegisterNatives clazz sMethods 5;
                         L_ALOGE register_failed_msg]).
      reflexivity.
  - intros Hfail.
    destruct (vm_GetEnv vm JNI_VERSION_1_4 =? JNI_OK) eqn:Eenv.
    + apply Z.eqb_eq in Eenv. destruct Hfail as [H|H]; [contradiction|].
      rewrite H. cbn [fst snd load_emit load_trace method_onEvent].
      split; [reflexivity|]. rewrite <- !app_assoc. eexists. split; [reflexivity|].
      intros c ms n Hin. simpl in Hin. intuition discriminate.
    + cbn [fst snd load_emit load_trace method_onEvent].
      split; [reflexivity|]. eexists. split; [reflexivity|].
      intros c ms n Hin. simpl in Hin. intuition discriminate.
Qed.

Lemma JNI_OnLoad_method_lookup_witness :
  (method_onEvent (JNI_OnLoad refusing_jvm not_loaded).1 = None
   /\ exists t,
        load_trace (JNI_OnLoad refusing_jvm not_loaded).1
        = load_trace not_loaded ++ t
          ++ [L_GetMethodID 11 "onEvent" "(IILjava/lang/String;)V";
              L_DeleteLocalRef 11])
  /\ (method_onEvent
        (JNI_OnLoad {| vm_GetEnv := fun _ => -3;
                       vm_FindClass := vm_FindClass sample_jvm;
                       vm_RegisterNatives := vm_RegisterNatives sample_jvm;
                       vm_GetMethodID := vm_GetMethodID sample_jvm |}
                    not_loaded).1
      = method_onEvent not_loaded).
Proof.
  split.
  - apply (proj1 (JNI_OnLoad_method_lookup refusing_jvm not_loaded) 11);
      reflexivity.
  - apply (proj2 (JNI_OnLoad_method_lookup
                    {| vm_GetEnv := fun _ => -3;
                       vm_FindClass := vm_FindClass sample_jvm;
                       vm_RegisterNatives := vm_RegisterNatives sample_jvm;
                       vm_GetMethodID := vm_GetMethodID sample_jvm |}
                    not_loaded)).
    left. simpl. unfold JNI_OK. lia.
Defined.

(** ** Registration, composed *)

Lemma linux_add_watch_inserts (k : gmap Z (gmap Z (list byte))) fd path m :
  0 <= (linux_inotify_add_watch k fd path m).2 ->
  linux_watches (linux_inotify_add_watch k fd path m).1 fd
  = <[(linux_inotify_add_watch k fd path m).2 := path]> (linux_watches k fd).
Proof.
  unfold linux_inotify_add_watch, linux_watches.
  destruct (k !! fd) as [t|] eqn:E; simpl; [|lia].
  intros _. rewrite lookup_insert_eq. reflexivity.
Qed.

Lemma linux_rm_watch_deletes (k : gmap Z (gmap Z (list byte))) fd u :
  is_Some (linux_watches k fd !! to_int32 u) ->
  linux_watches (linux_inotify_rm_watch k fd u).1 fd
  = delete (to_int32 u) (linux_watches k fd).
Proof.
  unfold linux_inotify_rm_watch, linux_watches.
  destruct (k !! fd) as [t|] eqn:E; simpl.
  - intros [p Hp]. rewrite Hp. simpl. rewrite lookup_insert_eq. reflexivity.
  - intros [p Hp]. rewrite lookup_empty in Hp. discriminate.
Qed.

(** X10.  A watch that [startWatching] registered is removed by
    [stopWatching] on the handle it returned: given a kernel in which
    [inotify_add_watch] enters the path under the descriptor it returns and
    [inotify_rm_watch] deletes a descriptor it knows, the table of [fd] holds
    the path under the handle after [startWatching], and after [stopWatching]
    it is the table from before without that handle, which is the table from
    before when the handle was fresh. *)
Theorem startWatching_then_stopWatching
    (kernel : Type)
    (sys_inotify_add_watch : kernel -> Z -> list byte -> Z -> kernel * Z)
    (sys_inotify_rm_watch : kernel -> Z -> Z -> kernel * Z)
    (watches : kernel -> Z -> gmap Z (list byte)) :
  (forall k fd path m,
      0 <= (sys_inotify_add_watch k fd path m).2 ->
      watches (sys_inotify_add_watch k fd path m).1 fd
      = <[(sys_inotify_add_watch k fd path m).2 := path]> (watches k fd)) ->
  (forall k fd u,
      is_Some (watches k fd !! to_int32 u) ->
      watches (sys_inotify_rm_watch k fd u).1 fd
      = delete (to_int32 u) (watches k fd)) ->
  forall (fd : Z) (pathString : list byte) (mask : Z) (w : world kernel),
    let started := android_os_fileobserver_startWatching kernel
                     sys_inotify_add_watch fd pathString mask w in
    let stopped := android_os_fileobserver_stopWatching kernel
                     sys_inotify_rm_watch fd started.2 started.1 in
    0 <= started.2 ->
    in_int started.2 = true ->
    watches (os started.1) fd !! started.2 = Some pathString
    /\ watches (os stopped) fd = delete started.2 (watches (os w) fd)
    /\ (watches (os w) fd !! started.2 = None ->
        watches (os stopped) fd = watches (os w) fd).
Proof.
  intros Hadd Hrm fd pathString mask w started stopped Hh Hint.
  assert (started.2 = (sys_inotify_add_watch (os w) fd pathString mask).2
          /\ os started.1 = (sys_inotify_add_watch (os w) fd pathString mask).1)
    as [Eh Eos].
  { subst started stopped. revert Hh.
    unfold android_os_fileobserver_startWatching.
    destruct (0 <=? fd); [|simpl; lia]. cbn [os calls].
    destruct (sys_inotify_add_watch (os w) fd pathString mask) as [k r].
    auto. }
  assert (watches (os started.1) fd = <[started.2 := pathString]> (watches (os w) fd))
    as Etab.
  { rewrite Eos, Eh. apply Hadd. rewrite <- Eh. exact Hh. }
  assert (watches (os stopped) fd = delete started.2 (watches (os w) fd)) as Edel.
  { subst stopped. unfold android_os_fileobserver_stopWatching.
    pose proof (Hrm (os started.1) fd (to_uint32 started.2)) as H.
    rewrite (to_int32_of_jint _ Hint) in H.
    destruct (sys_inotify_rm_watch (os started.1) fd (to_uint32 started.2))
      as [k r].
    cbn [os fst] in *. rewrite H.
    - rewrite Etab. apply delete_insert_eq.
    - rewrite Etab, lookup_insert_eq. eauto. }
  split; [rewrite Etab; apply lookup_insert_eq|].
  split; [exact Edel|].
  intros Hfresh. rewrite Edel. apply delete_id. exact Hfresh.
Qed.

Lemma startWatching_then_stopWatching_witness :
  let started := android_os_fileobserver_startWatching _ linux_inotify_add_watch
                   7 [x2f; x65; x74; x63] 256 sample_world in
  let stopped := android_os_fileobserver_stopWatching _ linux_inotify_rm_watch
                   7 started.2 started.1 in
  linux_watches (os started.1) 7 !! started.2 = Some [x2f; x65; x74; x63]
  /\ linux_watches (os stopped) 7 = delete started.2 (linux_watches (os sample_world) 7)
  /\ (linux_watches (os sample_world) 7 !! started.2 = None ->
      linux_watches (os stopped) 7 = linux_watches (os sample_world) 7).
Proof.
  apply (startWatching_then_stopWatching _ linux_inotify_add_watch
           linux_inotify_rm_watch linux_watches
           linux_add_watch_inserts linux_rm_watch_deletes
           7 [x2f; x65; x74; x63] 256 sample_world).
  - vm_compute. discriminate.
  - vm_compute. reflexivity.
Defined.

(** X11.  After an [init] that failed, the negative descriptor it returned
    makes [startWatching] return -1 and [release] do nothing, both without a
    system call; [stopWatching] has no such guard and calls
    [inotify_rm_watch] with the negative descriptor. *)
Theorem failed_init_disables_watching
    (kernel : Type)
    (sys_inotify_init : kernel -> kernel * Z)
    (sys_inotify_add_watch : kernel -> Z -> list byte -> Z -> kernel * Z)
    (sys_inotify_rm_watch : kernel -> Z -> Z -> kernel * Z)
    (sys_close : kernel -> Z -> kernel * Z)
    (w : world kernel) (pathString : list byte) (mask wfd : Z) :
  let opened := android_os_fileobserver_init kernel sys_inotify_init w in
  let fd := opened.2 in
  fd < 0 ->
  fd = (sys_inotify_init (os w)).2
  /\ android_os_fileobserver_startWatching kernel sys_inotify_add_watch
       fd pathString mask opened.1 = (opened.1, -1)
  /\ release kernel sys_close fd opened.1 = opened.1
  /\ calls (android_os_fileobserver_stopWatching kernel sys_inotify_rm_watch
              fd wfd opened.1)
     = calls w ++ [C_inotify_init; C_inotify_rm_watch fd (to_uint32 wfd)].
Proof.
  intros opened fd Hneg. subst fd opened.
  unfold android_os_fileobserver_init in *.
  destruct (sys_inotify_init (os w)) as [k r]. cbn [fst snd] in *.
  split; [reflexivity|].
  unfold android_os_fileobserver_startWatching, release,
    android_os_fileobserver_stopWatching.
  replace (0 <=? r) with false by (zbool; exact Hneg).
  split; [reflexivity|]. split; [reflexivity|].
  cbn [os calls].
  destruct (sys_inotify_rm_watch k r (to_uint32 wfd)) as [k' r'].
  cbn [calls]. rewrite <- app_assoc. reflexivity.
Qed.

Lemma failed_init_disables_watching_witness :
  let opened := android_os_fileobserver_init _ linux_inotify_init_fails
                  sample_world in
  opened.2 = (linux_inotify_init_fails (os sample_world)).2
  /\ android_os_fileobserver_startWatching _ linux_inotify_add_watch
       opened.2 [x2f; x74; x6d; x70] 256 opened.1 = (opened.1, -1)
  /\ release _ linux_close opened.2 opened.1 = opened.1
  /\ calls (android_os_fileobserver_stopWatching _ linux_inotify_rm_watch
              opened.2 1 opened.1)
     = calls sample_world
       ++ [C_inotify_init; C_inotify_rm_watch opened.2 (to_uint32 1)].
Proof.
  apply (failed_init_disables_watching _ linux_inotify_init_fails
           linux_inotify_add_watch linux_inotify_rm_watch linux_close
           sample_world [x2f; x74; x6d; x70] 256 1).
  simpl. lia.
Defined.

(** ** Decoding does not depend on the receiver *)

Section TwoSinks.

Context {sink1 sink2 : Type}.
Variable onEvent1 : sink1 -> Z -> Z -> option (list byte) -> sink1 * bool.
Variable java_errno1 : sink1 -> Z -> Z.
Variable onEvent2 : sink2 -> Z -> Z -> option (list byte) -> sink2 * bool.
Variable java_errno2 : sink2 -> Z -> Z.

Lemma observe_event_two_sinks buf nb pos (st1 : state sink1) (st2 : state sink2) :
  (observe_event sink1 onEvent1 java_errno1 buf nb pos st1).2
  = (observe_event sink2 onEvent2 java_errno2 buf nb pos st2).2
  /\ exists evs,
       dispatched (observe_event sink1 onEvent1 java_errno1 buf nb pos st1).1
       = dispatched st1 ++ evs
       /\ dispatched (observe_event sink2 onEvent2 java_errno2 buf nb pos st2).1
          = dispatched st2 ++ evs.
Proof.
  rewrite !observe_event_eq.
  destruct (load_event buf pos) as [ev|];
    [|split; [reflexivity|]; exists []; rewrite !app_nil_r; auto].
  destruct (path_of buf pos ev) as [path|];
    [|split; [reflexivity|]; exists []; rewrite !app_nil_r; auto].
  cbn zeta.
  destruct (in_int (nb - _)); [destruct (in_int (pos + _))|];
    (cbn [fst snd]; split; [reflexivity|];
     exists [(wd ev, mask ev, path)]; rewrite !dispatched_delivered; auto).
Qed.

Lemma observe_events_two_sinks fuel buf :
  forall nb pos (st1 : state sink1) (st2 : state sink2),
    exists evs,
      match observe_events sink1 onEvent1 java_errno1 fuel buf nb pos st1,
            observe_events sink2 onEvent2 java_errno2 fuel buf nb pos st2 with
      | Exit s1 n1 p1, Exit s2 n2 p2 | Running s1 n1 p1, Running s2 n2 p2 =>
          n1 = n2 /\ p1 = p2
          /\ dispatched s1 = dispatched st1 ++ evs
          /\ dispatched s2 = dispatched st2 ++ evs
      | Undefined s1, Undefined s2 =>
          dispatched s1 = dispatched st1 ++ evs
          /\ dispatched s2 = dispatched st2 ++ evs
      | _, _ => False
      end.
Proof.
  induction fuel as [|fuel IH]; intros nb pos st1 st2; simpl.
  - exists []. rewrite !app_nil_r. destruct (sizeof_event <=? nb); auto.
  - destruct (sizeof_event <=? nb);
      [|exists []; rewrite !app_nil_r; auto].
    destruct (observe_event_two_sinks buf nb pos st1 st2)
      as (Hr & evs & Hd1 & Hd2).
    destruct (observe_event sink1 onEvent1 java_errno1 buf nb pos st1) as [s1 r1].
    destruct (observe_event sink2 onEvent2 java_errno2 buf nb pos st2) as [s2 r2].
    cbn [fst snd] in *. subst r2.
    destruct r1 as [[nb' pos']|]; [|exists evs; auto].
    destruct (IH nb' pos' s1 s2) as (evs' & H).
    exists (evs ++ evs').
    destruct (observe_events sink1 onEvent1 java_errno1 fuel buf nb' pos' s1);
      destruct (observe_events sink2 onEvent2 java_errno2 fuel buf nb' pos' s2);
      try contradiction;
      rewrite !app_assoc, <- Hd1, <- Hd2; exact H.
Qed.

Lemma dispatched_read {sink : Type} fd r buf (st : state sink) :
  dispatched (read sink fd r buf st).1 = dispatched st.
Proof.
  unfold dispatched. destruct r; cbn [read fst trace];
    rewrite omap_app; apply app_nil_r.
Qed.

Lemma observe_two_sinks fuel reads fd :
  forall buf (st1 : state sink1) (st2 : state sink2),
    Forall (fun r => short_success r = false) reads ->
    (android_os_fileobserver_observe sink1 onEvent1 java_errno1 fuel reads fd
       buf st1).2
    = (android_os_fileobserver_observe sink2 onEvent2 java_errno2 fuel reads fd
         buf st2).2
    /\ exists evs,
         dispatched (android_os_fileobserver_observe sink1 onEvent1 java_errno1
                       fuel reads fd buf st1).1 = dispatched st1 ++ evs
         /\ dispatched (android_os_fileobserver_observe sink2 onEvent2 java_errno2
                          fuel reads fd buf st2).1 = dispatched st2 ++ evs.
Proof.
  induction reads as [|r reads IH]; intros buf st1 st2 Hall.
  - simpl. split; [reflexivity|]. exists []. rewrite !app_nil_r. auto.
  - apply Forall_cons in Hall as [Hr Hall].
    cbn [android_os_fileobserver_observe].
    pose proof (dispatched_read fd r buf st1) as Hd1.
    pose proof (dispatched_read fd r buf st2) as Hd2.
    destruct r as [data|e].
    + (* a read of 16 bytes or more: [errno] is not looked at *)
      simpl in Hr. apply Z.ltb_ge in Hr.
      cbn [read] in *. cbn [fst] in Hd1, Hd2.
      set (data' := take (Z.to_nat sizeof_event_buf) data) in *.
      assert (sizeof_event <= Z.of_nat (length data')) as Hge.
      { subst data'. rewrite length_take.
        unfold sizeof_event, sizeof_event_buf in *. lia. }
      replace (Z.of_nat (length data') <? sizeof_event) with false
        by (symmetry; apply Z.ltb_ge; exact Hge).
      set (s1 := {| java := java st1; exception_pending := exception_pending st1;
                    errno := errno st1; trace := trace st1 ++ [C_read fd] |}) in *.
      set (s2 := {| java := java st2; exception_pending := exception_pending st2;
                    errno := errno st2; trace := trace st2 ++ [C_read fd] |}) in *.
      set (buf1 := data' ++ drop (length data') buf).
      rewrite <- Hd1, <- Hd2.
      destruct (observe_events_two_sinks fuel buf1 (Z.of_nat (length data')) 0 s1 s2)
        as (evs & H).
      destruct (observe_events sink1 onEvent1 java_errno1 fuel buf1 _ 0 s1)
        as [t1 ? ?|t1|t1 ? ?];
        destruct (observe_events sink2 onEvent2 java_errno2 fuel buf1 _ 0 s2)
          as [t2 ? ?|t2|t2 ? ?];
        try contradiction.
      * destruct H as (_ & _ & H1 & H2).
        destruct (IH buf1 t1 t2 Hall) as (Hs & evs' & H1' & H2').
        split; [exact Hs|]. exists (evs ++ evs').
        rewrite !app_assoc, <- H1, <- H2. auto.
      * destruct H as (H1 & H2). split; [reflexivity|]. exists evs. auto.
      * destruct H as (_ & _ & H1 & H2). split; [reflexivity|]. exists evs. auto.
    + (* a failed read: [errno] is the one the read has set *)
      cbn [read] in *. cbn [fst] in Hd1, Hd2.
      change (-1 <? sizeof_event) with true. cbn [errno]. cbn iota.
      rewrite <- Hd1, <- Hd2.
      destruct (e =? EINTR).
      * apply IH. exact Hall.
      * split; [reflexivity|]. exists []. rewrite !app_nil_r.
        unfold dispatched. simpl. rewrite !omap_app. simpl.
        rewrite !app_nil_r. auto.
Qed.

End TwoSinks.

(** X12.  What the inner loop hands over from a buffer, and where it leaves
    the cursor, is decided by the buffer alone: two runs with different Java
    objects behind [onEvent], whatever these do to their own state and to
    [errno] and whether or not they throw, add the same events in the same
    order.  The same holds for whole runs of [observe], status included, as
    long as no read returns fewer bytes than a header without failing; after
    such a read the loop tests the [errno] the Java code may have written. *)
Theorem dispatch_independent_of_sink
    (sink1 sink2 : Type)
    (onEvent1 : sink1 -> Z -> Z -> option (list byte) -> sink1 * bool)
    (java_errno1 : sink1 -> Z -> Z)
    (onEvent2 : sink2 -> Z -> Z -> option (list byte) -> sink2 * bool)
    (java_errno2 : sink2 -> Z -> Z)
    (fuel : nat) (reads : list read_result) (fd : Z) (event_buf : list byte)
    (st1 : state sink1) (st2 : state sink2) :
  (forall num_bytes event_pos,
      exists evs,
        match observe_events sink1 onEvent1 java_errno1 fuel event_buf
                num_bytes event_pos st1,
              observe_events sink2 onEvent2 java_errno2 fuel event_buf
                num_bytes event_pos st2 with
        | Exit s1 n1 p1, Exit s2 n2 p2 | Running s1 n1 p1, Running s2 n2 p2 =>
            n1 = n2 /\ p1 = p2
            /\ dispatched s1 = dispatched st1 ++ evs
            /\ dispatched s2 = dispatched st2 ++ evs
        | Undefined s1, Undefined s2 =>
            dispatched s1 = dispatched st1 ++ evs
            /\ dispatched s2 = dispatched st2 ++ evs
        | _, _ => False
        end)
  /\ (Forall (fun r => short_success r = false) reads ->
      let run1 := android_os_fileobserver_observe sink1 onEvent1 java_errno1 fuel
                    reads fd event_buf st1 in
      let run2 := android_os_fileobserver_observe sink2 onEvent2 java_errno2 fuel
                    reads fd event_buf st2 in
      run1.2 = run2.2
      /\ exists evs,
           dispatched run1.1 = dispatched st1 ++ evs
           /\ dispatched run2.1 = dispatched st2 ++ evs).
Proof.
  split.
  - intros nb pos. apply observe_events_two_sinks.
  - intros Hall run1 run2. subst run1 run2.
    apply observe_two_sinks. exact Hall.
Qed.

Lemma dispatch_independent_of_sink_witness :
  let reads := [ReadBytes (pack [sample_create; sample_delete_self]);
                ReadError EINTR; ReadBytes (pack [sample_moved_to]); ReadError 9] in
  let counting : state nat :=
    {| java := 0%nat; exception_pending := false; errno := EINTR; trace := [] |} in
  let run1 := android_os_fileobserver_observe unit touchy keeps_errno 2 reads 7
                (zero_padded []) (fresh 0) in
  let run2 := android_os_fileobserver_observe nat
                (fun n _ _ _ => (S n, false)) leaves_EINTR 2 reads 7
                (zero_padded []) counting in
  run1.2 = run2.2
  /\ exists evs,
       dispatched run1.1 = dispatched (fresh 0) ++ evs
       /\ dispatched run2.1 = dispatched counting ++ evs.
Proof.
  intros reads counting.
  apply (proj2 (dispatch_independent_of_sink unit nat touchy keeps_errno
                  (fun n _ _ _ => (S n, false)) leaves_EINTR 2 reads 7
                  (zero_padded []) (fresh 0) counting)).
  repeat constructor.
Defined.

(** After a read without failure of fewer bytes than a header the two runs can
    part: the loop tests [errno], and Java code that left [EINTR] there makes
    it read again where it returns otherwise. *)
Lemma short_success_outcome_depends_on_sink :
  let reads := [ReadBytes (pack [sample_create]); ReadBytes []] in
  (android_os_fileobserver_observe unit calm keeps_errno 1 reads 7
     (zero_padded []) (fresh 0)).2 = Stopped
  /\ (android_os_fileobserver_observe unit calm leaves_EINTR 1 reads 7
        (zero_padded []) (fresh 0)).2 = Blocked.
Proof. split; vm_compute; reflexivity. Qed.
